(** * Retrieval-and-memory orchestration engine: a shallow embedding

    The development follows the Python services of the backend:

    - [services/rag_service.py]              (modules [RAG], [RAGSpec])
    - [services/memory_service.py]           (modules [Memory], [Service])
    - [services/knowledge_graph_service.py]  (module [KG])
    - [api/chat.py]                          (module [Chat])
    - [api/search.py]                        (module [SearchAPI])

    Python dictionaries are finite maps ([gmap]), Python sets are finite
    sets ([gset]), Python [int] is [Z], exceptions are an explicit error
    result.  Similarity scores are Python floats that are only ever
    compared, never computed with, by the code below; they are rendered as
    rationals ([Q]), whose order agrees with the order of finite floats.

    The relational store is seen through the ORM session.  A row loaded
    by a query is an object; [db.commit()] sends an UPDATE with the
    attributes of the object that were assigned since it was loaded, and
    [db.refresh] reads the row again.  The JSON columns are declared as
    plain [Column(JSON)]: a list or dictionary changed in place
    ([append], [extend], [update], [remove], [d[k] = v]) is not an
    assignment, so the change is not written and is gone after the
    refresh.  Each call of a service method starts from the committed
    tables, as a request with a session of its own does; a call that
    raises leaves the tables as its commits left them.

    The embedding endpoint, the SQL operators of the chunk store, the
    completion engine, the graph store and the iteration order of Python
    sets are parameters, given as type classes.  A call reads the clock
    once: [datetime.utcnow()] is the argument [now] of the call, in its
    ISO-8601 rendering. *)

From Stdlib Require Import ZArith QArith String List Permutation Sorted.
From stdpp Require Import base option list gmap sets strings pretty sorting.

#[local] Set Warnings "-clear-no-such-hyp".

Local Open Scope string_scope.
Local Open Scope list_scope.
Local Open Scope Z_scope.

(** ** Python values and exceptions *)

Module Py.

(** Exceptions that the modelled code can raise. *)
Inductive exn : Type :=
| TypeError
| MultipleResultsFound
| DBAPIError
| ExternalError (msg : string).

(** The outcome of a call: a value, or a raised exception. *)
Inductive result (A : Type) : Type :=
| Ok (a : A)
| Raise (e : exn).
Global Arguments Ok {A} a.
Global Arguments Raise {A} e.

Definition bind {A B} (m : result A) (f : A → result B) : result B :=
  match m with
  | Ok a => f a
  | Raise e => Raise e
  end.

(** [try: m except Exception: return d] *)
Definition try_except {A} (m : result A) (d : A) : A :=
  match m with
  | Ok a => a
  | Raise _ => d
  end.

(** Hashable JSON scalars: [None], integers and strings. *)
Inductive atom : Type :=
| ANone
| AInt (z : Z)
| AStr (s : string).

(** JSON values as the services store them: a scalar or a flat list. *)
Inductive pyval : Type :=
| PAtom (a : atom)
| PList (l : list atom).

Global Instance atom_eq_dec : EqDecision atom.
Proof. solve_decision. Defined.

Global Instance pyval_eq_dec : EqDecision pyval.
Proof. solve_decision. Defined.

Definition atom_to_sum (a : atom) : unit + (Z + string) :=
  match a with
  | ANone => inl tt
  | AInt z => inr (inl z)
  | AStr s => inr (inr s)
  end.

Definition atom_of_sum (x : unit + (Z + string)) : atom :=
  match x with
  | inl _ => ANone
  | inr (inl z) => AInt z
  | inr (inr s) => AStr s
  end.

Global Instance atom_countable : Countable atom.
Proof.
  apply (inj_countable' atom_to_sum atom_of_sum).
  intros []; reflexivity.
Defined.

(** [x * n] for an optional integer [x]: [None * 2] raises [TypeError]. *)
Definition py_mul (x : option Z) (n : Z) : result Z :=
  match x with
  | Some k => Ok (k * n)
  | None => Raise TypeError
  end.

(** [x or d] for an optional integer: [None] and [0] are falsy. *)
Definition py_or (x : option Z) (d : Z) : Z :=
  match x with
  | Some k => if decide (k = 0) then d else k
  | None => d
  end.

(** [l[:k]]: a negative bound counts from the end of the list. *)
Definition slice_to {A} (l : list A) (k : Z) : list A :=
  if decide (0 ≤ k) then take (Z.to_nat k) l
  else take (length l - Z.to_nat (- k)) l.

(** [l[-n:]] for a positive literal [n]: the last [n] elements. *)
Definition last_n {A} (n : nat) (l : list A) : list A :=
  drop (length l - n) l.

(** A stable insertion sort; [before x y] says that [x] may stay in front
    of [y].  Python's [list.sort] and [sorted] are stable, and any two
    stable sorts for the same key return the same list. *)
Fixpoint insert_sorted {A} (before : A → A → bool) (x : A) (l : list A)
    : list A :=
  match l with
  | [] => [x]
  | y :: l' =>
      if before x y then x :: l else y :: insert_sorted before x l'
  end.

Definition stable_sort {A} (before : A → A → bool) (l : list A) : list A :=
  foldr (insert_sorted before) [] l.

(** [x or []] on a nullable JSON list column. *)
Definition or_nil {A} (x : option (list A)) : list A :=
  match x with
  | Some l => l
  | None => []
  end.

(** What the interpreter leaves open or what is plain formatting: the
    iteration order of a set, and the text of [str] and [json.dumps]. *)
Class Runtime : Type := {
  list_of_set : ∀ `{Countable A}, gset A → list A;
  list_of_set_perm : ∀ `{Countable A} (X : gset A), list_of_set X ≡ₚ elements X;
  repr_list : list atom → string;
  json_dumps : gmap string pyval → string;
}.

(** [str(v)] *)
Definition py_str `{Runtime} (v : pyval) : string :=
  match v with
  | PAtom ANone => "None"
  | PAtom (AInt z) => pretty z
  | PAtom (AStr s) => s
  | PList l => repr_list l
  end.

End Py.
Import Py.

Notation "'let*' x ':=' m 'in' k" := (Py.bind m (fun x => k))
  (at level 10, x name, m at level 100, k at level 200,
   format "'[v' 'let*'  x  ':='  m  'in' '/' k ']'").

(** ** Retrieval: [services/rag_service.py] *)

Module RAG.

Inductive search_type : Type := Vector | Keyword.

(** A result dictionary as built by the two sub-queries.  The key
    ["search_type"] is absent until [hybrid_search] sets it. *)
Record chunk_doc : Type := mk_chunk_doc {
  chunk_id : string;
  content : string;
  chunk_index : Z;
  metadata : gmap string pyval;
  document_id : string;
  document_title : string;
  filename : string;
  mime_type : string;
  similarity : Q;
  search_type_of : option search_type;
}.

(** [result["search_type"] = t] *)
Definition set_search_type (t : search_type) (r : chunk_doc) : chunk_doc :=
  {| chunk_id := chunk_id r; content := content r;
     chunk_index := chunk_index r; metadata := metadata r;
     document_id := document_id r;
     document_title := document_title r; filename := filename r;
     mime_type := mime_type r; similarity := similarity r;
     search_type_of := Some t |}.

(** One iteration of either deduplication loop of [hybrid_search]; the
    state is [(seen_ids, combined_results)]. *)
Definition add_unseen (t : search_type)
    (st : gset string * list chunk_doc) (r : chunk_doc)
    : gset string * list chunk_doc :=
  if decide (chunk_id r ∈ st.1) then st
  else ({[chunk_id r]} ∪ st.1, st.2 ++ [set_search_type t r]).

(** Vector results first, keyword results second. *)
Definition combine_results (vector_results keyword_results : list chunk_doc)
    : list chunk_doc :=
  (foldl (add_unseen Keyword)
     (foldl (add_unseen Vector) (∅, []) vector_results)
     keyword_results).2.

(** [combined_results.sort(key=lambda x: x.get("similarity", 0),
    reverse=True)]: every result dictionary has the key ["similarity"],
    so the default [0] is never used. *)
Definition sim_ge (x y : chunk_doc) : bool :=
  Qle_bool (similarity y) (similarity x).

Definition sort_desc (l : list chunk_doc) : list chunk_doc :=
  stable_sort sim_ge l.

(** The combine, sort and limit steps of [hybrid_search]
    (rag_service.py, lines 121-141). *)
Definition merge (self_top_k : Z) (vector_results keyword_results : list chunk_doc)
    (top_k : option Z) : list chunk_doc :=
  slice_to (sort_desc (combine_results vector_results keyword_results))
           (py_or top_k self_top_k).

(** Specification side: for each chunk id outside [seen], its first result
    in [l], in the order of [l]. *)
Fixpoint first_unseen (seen : gset string) (l : list chunk_doc) : list chunk_doc :=
  match l with
  | [] => []
  | r :: l' =>
      if decide (chunk_id r ∈ seen) then first_unseen seen l'
      else r :: first_unseen ({[chunk_id r]} ∪ seen) l'
  end.

Definition first_with_id (id : string) (l : list chunk_doc) : option chunk_doc :=
  List.find (λ r, bool_decide (chunk_id r = id)) l.

Definition ids_of (l : list chunk_doc) : gset string :=
  list_to_set (chunk_id <$> l).

(** Where a merged result comes from: the first vector result with its
    chunk id, tagged [vector]; or, when no vector result has that id, the
    first keyword result with it, tagged [keyword]. *)
Definition merged_from (v k : list chunk_doc) (r : chunk_doc) : Prop :=
  (∃ x, first_with_id (chunk_id r) v = Some x ∧ r = set_search_type Vector x)
  ∨ ((chunk_id r ∉ ids_of v)
     ∧ ∃ x, first_with_id (chunk_id r) k = Some x ∧ r = set_search_type Keyword x).

(** *** The two sub-queries *)

(** [RAGService.__init__]: both fields come from the settings. *)
Record RAGService : Type := mk_RAGService {
  top_k : Z;
  similarity_threshold : Q;
}.

(** [core/config.py]: [VECTOR_SEARCH_TOP_K = 5],
    [VECTOR_SEARCH_SIMILARITY_THRESHOLD = 0.7]. *)
Definition rag_service : RAGService :=
  {| top_k := 5; similarity_threshold := 7 # 10 |}.

(** The keys of [filters] that the service reads, with the values the
    SQL parameters expect.  A dictionary without any of them behaves as
    [None]: it adds no condition. *)
Record filters : Type := mk_filters {
  f_document_type : option string;
  f_tags : option (list string);
  f_team : option string;
}.

(** The SQL fragments appended to [filter_conditions]. *)
Inductive condition : Type :=
| MimeTypeIs (v : string)      (* d.mime_type = :mime_type *)
| TagsOverlap (v : list string) (* d.tags && :tags *)
| TeamCanAccess (v : string).   (* (:team = ANY(d.team_access) OR d.is_public = true) *)

(** A row of [document_chunks dc JOIN documents d]. *)
Record chunk_row : Type := mk_chunk_row {
  dc_id : string;
  dc_content : string;
  dc_chunk_index : Z;
  dc_metadata_json : gmap string pyval;
  dc_embedding : option (list Q);
  d_id : string;
  d_title : string;
  d_filename : string;
  d_mime_type : string;
  d_tags : list string;
  d_team_access : list string;
  d_is_public : bool;
}.

Definition holds (row : chunk_row) (c : condition) : bool :=
  match c with
  | MimeTypeIs v => bool_decide (d_mime_type row = v)
  | TagsOverlap v => existsb (λ t, bool_decide (t ∈ v)) (d_tags row)
  | TeamCanAccess v => bool_decide (v ∈ d_team_access row) || d_is_public row
  end.

(** [where_clause]: the conditions joined by [AND]. *)
Definition where_clause (conds : list condition) (row : chunk_row) : bool :=
  forallb (holds row) conds.

Definition opt_cond {A} (mk : A → condition) (x : option A) : list condition :=
  match x with
  | Some v => [mk v]
  | None => []
  end.

(** [search_documents], lines 43-56. *)
Definition vector_filter_conditions (fs : option filters) : list condition :=
  match fs with
  | None => []
  | Some f =>
      opt_cond MimeTypeIs (f_document_type f)
      ++ opt_cond TagsOverlap (f_tags f)
      ++ opt_cond TeamCanAccess (f_team f)
  end.

(** [keyword_search], lines 152-162. *)
Definition keyword_filter_conditions (fs : option filters) : list condition :=
  match fs with
  | None => []
  | Some f =>
      opt_cond MimeTypeIs (f_document_type f)
      ++ opt_cond TagsOverlap (f_tags f)
  end.

(** What the service obtains from its collaborators: the embedding
    endpoint and the SQL operators of the chunk store. *)
Class ChunkStoreOps : Type := {
  (* llm_service.get_embeddings(texts); it raises when the endpoint fails *)
  get_embeddings : list string → result (list (list Q));
  (* pgvector's cosine distance, [dc.embedding <=> :query_embedding] *)
  cosine_distance : list Q → list Q → Q;
  (* [dc.content ILIKE '%query%'] *)
  ilike : string → string → bool;
  (* pg_trgm's [similarity(dc.content, :query)], possibly NULL *)
  trgm_similarity : string → string → option Q;
}.

(** [LIMIT :limit]; the store rejects a negative limit. *)
Definition sql_limit {A} (limit : Z) (rows : list A) : result (list A) :=
  if decide (limit < 0) then Raise (ExternalError "LIMIT must not be negative")
  else Ok (take (Z.to_nat limit) rows).

Section sub_queries.
Context `{ChunkStoreOps}.

(** [dc.embedding <=> :query_embedding]; NULL for a NULL embedding. *)
Definition cosine_distance' (q : list Q) (row : chunk_row) : option Q :=
  match dc_embedding row with
  | Some e => Some (cosine_distance e q)
  | None => None
  end.

(** [1 - (dc.embedding <=> :query_embedding)] *)
Definition vector_similarity (q : list Q) (row : chunk_row) : option Q :=
  match cosine_distance' q row with
  | Some d => Some (1 - d)%Q
  | None => None
  end.

Definition vector_doc (q : list Q) (row : chunk_row) : chunk_doc :=
  {| chunk_id := dc_id row; content := dc_content row;
     chunk_index := dc_chunk_index row; metadata := dc_metadata_json row;
     document_id := d_id row; document_title := d_title row;
     filename := d_filename row; mime_type := d_mime_type row;
     similarity := default 0%Q (vector_similarity q row);
     search_type_of := None |}.

(** The SQL statement of [search_documents], lines 62-80. *)
Definition vector_sql (db : list chunk_row) (q : list Q) (threshold : Q)
    (conds : list condition) (limit : Z) : result (list chunk_row) :=
  let selected :=
    List.filter (λ row,
      match vector_similarity q row with
      | Some s => negb (Qle_bool s threshold) && where_clause conds row
      | None => false
      end) db in
  let distance row := default 0%Q (cosine_distance' q row) in
  let ordered :=
    stable_sort (λ x y, Qle_bool (distance x) (distance y)) selected in
  sql_limit limit ordered.

(** [search_documents]: the embedding call is outside the [try], so
    its exception propagates; a failing query yields the empty list. *)
Definition search_documents (self : RAGService) (db : list chunk_row)
    (query : string) (top_k_arg : option Z) (fs : option filters)
    : result (list chunk_doc) :=
  let* embeddings := get_embeddings [query] in
  match embeddings with
  | [] | [] :: _ => Ok []
  | query_embedding :: _ =>
      let limit := py_or top_k_arg (top_k self) in
      let conds := vector_filter_conditions fs in
      Ok (try_except
            (let* rows := vector_sql db query_embedding
                      (similarity_threshold self) conds limit in
             Ok (vector_doc query_embedding <$> rows))
            [])
  end.

(** [float(row.similarity) if row.similarity else 0.5] *)
Definition keyword_similarity (query : string) (row : chunk_row) : Q :=
  match trgm_similarity (dc_content row) query with
  | Some s => if Qeq_bool s 0 then 5 # 10 else s
  | None => 5 # 10
  end.

Definition keyword_doc (query : string) (row : chunk_row) : chunk_doc :=
  {| chunk_id := dc_id row; content := dc_content row;
     chunk_index := dc_chunk_index row; metadata := dc_metadata_json row;
     document_id := d_id row; document_title := d_title row;
     filename := d_filename row; mime_type := d_mime_type row;
     similarity := keyword_similarity query row;
     search_type_of := None |}.

(** SQL orders [NULL] first under [DESC]. *)
Definition trgm_ge (query : string) (x y : chunk_row) : bool :=
  match trgm_similarity (dc_content x) query,
        trgm_similarity (dc_content y) query with
  | None, _ => true
  | Some _, None => false
  | Some sx, Some sy => Qle_bool sy sx
  end.

(** The SQL statement of [keyword_search], lines 168-185. *)
Definition keyword_sql (db : list chunk_row) (query : string)
    (conds : list condition) (limit : Z) : result (list chunk_row) :=
  let selected :=
    List.filter (λ row, ilike (dc_content row) query && where_clause conds row)
      db in
  sql_limit limit (stable_sort (trgm_ge query) selected).

Definition keyword_search (self : RAGService) (db : list chunk_row)
    (query : string) (top_k_arg : option Z) (fs : option filters)
    : list chunk_doc :=
  let limit := py_or top_k_arg (top_k self) in
  let conds := keyword_filter_conditions fs in
  try_except
    (let* rows := keyword_sql db query conds limit in
     Ok (keyword_doc query <$> rows))
    [].

(** [hybrid_search]: both sub-queries receive [top_k * 2], which is
    evaluated before either call. *)
Definition hybrid_search (self : RAGService) (db : list chunk_row)
    (query : string) (top_k_arg : option Z) (fs : option filters)
    : result (list chunk_doc) :=
  let* k := py_mul top_k_arg 2 in
  let* vector_results := search_documents self db query (Some k) fs in
  let* k' := py_mul top_k_arg 2 in
  let keyword_results := keyword_search self db query (Some k') fs in
  Ok (merge (top_k self) vector_results keyword_results top_k_arg).

End sub_queries.

(** *** [generate_with_context] *)

Record llm_response : Type := mk_llm_response {
  resp_content : string;
  resp_model : string;
  resp_tokens_used : Z;
}.

(** The completion engine, and the two fixed text templates of
    [generate_with_context] (its prompt and the memory instructions
    appended to the system prompt). *)
Class CompletionEngine : Type := {
  llm_generate :
    string → string → option (list (string * string)) → result llm_response;
  create_system_prompt : string → option string → string;
  prompt_template : option string → string → string → string → string;
  memory_awareness_instructions : string;
}.

Record source : Type := mk_source {
  src_index : nat;
  src_document_id : string;
  src_document_title : string;
  src_chunk_id : string;
  src_similarity : Q;
  src_search_type : search_type;
}.

Record rag_answer : Type := mk_rag_answer {
  ans_content : string;
  ans_sources : list source;
  ans_model : string;
  ans_tokens_used : Z;
}.

Definition newline : string := String (Ascii.ascii_of_nat 10) EmptyString.

(** [f"[Source {i}] From {doc['document_title']}:\n{doc['content']}\n"] *)
Definition context_part (i : nat) (doc : chunk_doc) : string :=
  ("[Source " +:+ pretty i +:+ "] From " +:+ document_title doc +:+ ":"
     +:+ newline +:+ content doc +:+ newline)%string.

Definition source_of (i : nat) (doc : chunk_doc) : source :=
  {| src_index := i; src_document_id := document_id doc;
     src_document_title := document_title doc;
     src_chunk_id := chunk_id doc; src_similarity := similarity doc;
     src_search_type := default Vector (search_type_of doc) |}.

(** ["\n".join(parts)] *)
Fixpoint join_lines (parts : list string) : string :=
  match parts with
  | [] => EmptyString
  | [p] => p
  | p :: ps => (p +:+ newline +:+ join_lines ps)%string
  end.

Definition generate_with_context `{ChunkStoreOps} `{CompletionEngine}
    (self : RAGService) (db : list chunk_row) (query : string)
    (user_role : string) (conversation_context : option (list (string * string)))
    (persistent_memory : option string) (top_k_arg : option Z)
    (fs : option filters) : result rag_answer :=
  let* relevant_docs := hybrid_search self db query top_k_arg fs in
  let context_parts := imap (λ i, context_part (S i)) relevant_docs in
  let sources := imap (λ i, source_of (S i)) relevant_docs in
  let context_text := join_lines context_parts in
  let prompt := prompt_template persistent_memory context_text query user_role in
  let system_prompt :=
    (create_system_prompt user_role persistent_memory
       +:+ memory_awareness_instructions)%string in
  let* response := llm_generate prompt system_prompt conversation_context in
  Ok {| ans_content := resp_content response; ans_sources := sources;
        ans_model := resp_model response;
        ans_tokens_used := resp_tokens_used response |}.

End RAG.

(** ** Persistent memory: [services/memory_service.py] *)

Module Memory.

(** A row of [user_memories] ([models/user_memory.py]); JSON columns are
    nullable, timestamps are kept in their ISO-8601 rendering. *)
Record UserMemory : Type := mk_UserMemory {
  um_user_id : string;
  employee_facts : option (gmap string pyval);
  team_info : option (gmap string pyval);
  company_knowledge : option (gmap string pyval);
  active_projects : option (list (gmap string pyval));
  project_history : option (list (gmap string pyval));
  conversation_summaries : option (list (gmap string pyval));
  domain_expertise : option (gmap string pyval);
  tech_preferences : option (gmap string pyval);
  learning_progress : option (gmap string pyval);
  frequent_topics : option (list string);
  custom_notes : option string;
  total_conversations : Z;
  total_messages : Z;
  last_interaction : option string;
  um_created_at : string;
  updated_at : string;
}.

Definition set_employee_facts (v : option (gmap string pyval)) (r : UserMemory) : UserMemory :=
  {| um_user_id := um_user_id r; employee_facts := v;
     team_info := team_info r; company_knowledge := company_knowledge r;
     active_projects := active_projects r;
     project_history := project_history r;
     conversation_summaries := conversation_summaries r;
     domain_expertise := domain_expertise r;
     tech_preferences := tech_preferences r;
     learning_progress := learning_progress r;
     frequent_topics := frequent_topics r; custom_notes := custom_notes r;
     total_conversations := total_conversations r;
     total_messages := total_messages r;
     last_interaction := last_interaction r;
     um_created_at := um_created_at r; updated_at := updated_at r |}.

Definition set_team_info (v : option (gmap string pyval)) (r : UserMemory) : UserMemory :=
  {| um_user_id := um_user_id r; employee_facts := employee_facts r;
     team_info := v; company_knowledge := company_knowledge r;
     active_projects := active_projects r;
     project_history := project_history r;
     conversation_summaries := conversation_summaries r;
     domain_expertise := domain_expertise r;
     tech_preferences := tech_preferences r;
     learning_progress := learning_progress r;
     frequent_topics := frequent_topics r; custom_notes := custom_notes r;
     total_conversations := total_conversations r;
     total_messages := total_messages r;
     last_interaction := last_interaction r;
     um_created_at := um_created_at r; updated_at := updated_at r |}.

Definition set_active_projects (v : option (list (gmap string pyval))) (r : UserMemory) : UserMemory :=
  {| um_user_id := um_user_id r; employee_facts := employee_facts r;
     team_info := team_info r; company_knowledge := company_knowledge r;
     active_projects := v; project_history := project_history r;
     conversation_summaries := conversation_summaries r;
     domain_expertise := domain_expertise r;
     tech_preferences := tech_preferences r;
     learning_progress := learning_progress r;
     frequent_topics := frequent_topics r; custom_notes := custom_notes r;
     total_conversations := total_conversations r;
     total_messages := total_messages r;
     last_interaction := last_interaction r;
     um_created_at := um_created_at r; updated_at := updated_at r |}.

Definition set_project_history (v : option (list (gmap string pyval))) (r : UserMemory) : UserMemory :=
  {| um_user_id := um_user_id r; employee_facts := employee_facts r;
     team_info := team_info r; company_knowledge := company_knowledge r;
     active_projects := active_projects r; project_history := v;
     conversation_summaries := conversation_summaries r;
     domain_expertise := domain_expertise r;
     tech_preferences := tech_preferences r;
     learning_progress := learning_progress r;
     frequent_topics := frequent_topics r; custom_notes := custom_notes r;
     total_conversations := total_conversations r;
     total_messages := total_messages r;
     last_interaction := last_interaction r;
     um_created_at := um_created_at r; updated_at := updated_at r |}.

Definition set_conversation_summaries (v : option (list (gmap string pyval))) (r : UserMemory) : UserMemory :=
  {| um_user_id := um_user_id r; employee_facts := employee_facts r;
     team_info := team_info r; company_knowledge := company_knowledge r;
     active_projects := active_projects r;
     project_history := project_history r; conversation_summaries := v;
     domain_expertise := domain_expertise r;
     tech_preferences := tech_preferences r;
     learning_progress := learning_progress r;
     frequent_topics := frequent_topics r; custom_notes := custom_notes r;
     total_conversations := total_conversations r;
     total_messages := total_messages r;
     last_interaction := last_interaction r;
     um_created_at := um_created_at r; updated_at := updated_at r |}.

Definition set_domain_expertise (v : option (gmap string pyval)) (r : UserMemory) : UserMemory :=
  {| um_user_id := um_user_id r; employee_facts := employee_facts r;
     team_info := team_info r; company_knowledge := company_knowledge r;
     active_projects := active_projects r;
     project_history := project_history r;
     conversation_summaries := conversation_summaries r;
     domain_expertise := v; tech_preferences := tech_preferences r;
     learning_progress := learning_progress r;
     frequent_topics := frequent_topics r; custom_notes := custom_notes r;
     total_conversations := total_conversations r;
     total_messages := total_messages r;
     last_interaction := last_interaction r;
     um_created_at := um_created_at r; updated_at := updated_at r |}.

Definition set_frequent_topics (v : option (list string)) (r : UserMemory) : UserMemory :=
  {| um_user_id := um_user_id r; employee_facts := employee_facts r;
     team_info := team_info r; company_knowledge := company_knowledge r;
     active_projects := active_projects r;
     project_history := project_history r;
     conversation_summaries := conversation_summaries r;
     domain_expertise := domain_expertise r;
     tech_preferences := tech_preferences r;
     learning_progress := learning_progress r; frequent_topics := v;
     custom_notes := custom_notes r;
     total_conversations := total_conversations r;
     total_messages := total_messages r;
     last_interaction := last_interaction r;
     um_created_at := um_created_at r; updated_at := updated_at r |}.

Definition set_total_messages (v : Z) (r : UserMemory) : UserMemory :=
  {| um_user_id := um_user_id r; employee_facts := employee_facts r;
     team_info := team_info r; company_knowledge := company_knowledge r;
     active_projects := active_projects r;
     project_history := project_history r;
     conversation_summaries := conversation_summaries r;
     domain_expertise := domain_expertise r;
     tech_preferences := tech_preferences r;
     learning_progress := learning_progress r;
     frequent_topics := frequent_topics r; custom_notes := custom_notes r;
     total_conversations := total_conversations r; total_messages := v;
     last_interaction := last_interaction r;
     um_created_at := um_created_at r; updated_at := updated_at r |}.

Definition set_last_interaction (v : option string) (r : UserMemory) : UserMemory :=
  {| um_user_id := um_user_id r; employee_facts := employee_facts r;
     team_info := team_info r; company_knowledge := company_knowledge r;
     active_projects := active_projects r;
     project_history := project_history r;
     conversation_summaries := conversation_summaries r;
     domain_expertise := domain_expertise r;
     tech_preferences := tech_preferences r;
     learning_progress := learning_progress r;
     frequent_topics := frequent_topics r; custom_notes := custom_notes r;
     total_conversations := total_conversations r;
     total_messages := total_messages r; last_interaction := v;
     um_created_at := um_created_at r; updated_at := updated_at r |}.

Definition set_updated_at (v : string) (r : UserMemory) : UserMemory :=
  {| um_user_id := um_user_id r; employee_facts := employee_facts r;
     team_info := team_info r; company_knowledge := company_knowledge r;
     active_projects := active_projects r;
     project_history := project_history r;
     conversation_summaries := conversation_summaries r;
     domain_expertise := domain_expertise r;
     tech_preferences := tech_preferences r;
     learning_progress := learning_progress r;
     frequent_topics := frequent_topics r; custom_notes := custom_notes r;
     total_conversations := total_conversations r;
     total_messages := total_messages r;
     last_interaction := last_interaction r;
     um_created_at := um_created_at r; updated_at := v |}.

(** A row of [memory_entries]. *)
Record MemoryEntry : Type := mk_MemoryEntry {
  me_user_id : string;
  category : string;
  key : string;
  value : string;
  source_conversation_id : option string;
  confidence : Z;
  tags : option (list string);
  me_metadata : option (gmap string pyval);
  me_created_at : string;
  me_updated_at : string;
  expires_at : option string;
}.

Definition set_value (v : string) (r : MemoryEntry) : MemoryEntry :=
  {| me_user_id := me_user_id r; category := category r; key := key r;
     value := v; source_conversation_id := source_conversation_id r;
     confidence := confidence r; tags := tags r;
     me_metadata := me_metadata r; me_created_at := me_created_at r;
     me_updated_at := me_updated_at r; expires_at := expires_at r |}.

Definition set_confidence (v : Z) (r : MemoryEntry) : MemoryEntry :=
  {| me_user_id := me_user_id r; category := category r; key := key r;
     value := value r; source_conversation_id := source_conversation_id r;
     confidence := v; tags := tags r; me_metadata := me_metadata r;
     me_created_at := me_created_at r; me_updated_at := me_updated_at r;
     expires_at := expires_at r |}.

Definition set_tags (v : option (list string)) (r : MemoryEntry) : MemoryEntry :=
  {| me_user_id := me_user_id r; category := category r; key := key r;
     value := value r; source_conversation_id := source_conversation_id r;
     confidence := confidence r; tags := v; me_metadata := me_metadata r;
     me_created_at := me_created_at r; me_updated_at := me_updated_at r;
     expires_at := expires_at r |}.

Definition set_me_metadata (v : option (gmap string pyval)) (r : MemoryEntry) : MemoryEntry :=
  {| me_user_id := me_user_id r; category := category r; key := key r;
     value := value r; source_conversation_id := source_conversation_id r;
     confidence := confidence r; tags := tags r; me_metadata := v;
     me_created_at := me_created_at r; me_updated_at := me_updated_at r;
     expires_at := expires_at r |}.

Definition set_me_updated_at (v : string) (r : MemoryEntry) : MemoryEntry :=
  {| me_user_id := me_user_id r; category := category r; key := key r;
     value := value r; source_conversation_id := source_conversation_id r;
     confidence := confidence r; tags := tags r;
     me_metadata := me_metadata r; me_created_at := me_created_at r;
     me_updated_at := v; expires_at := expires_at r |}.

(** A row of [conversation_contexts]. *)
Record ConversationContext : Type := mk_ConversationContext {
  cc_user_id : string;
  context_type : string;
  context_key : string;
  title : string;
  description : option string;
  status : string;
  conversation_ids : option (list string);
  key_facts : option (list string);
  decisions_made : option (list string);
  action_items : option (list string);
  cc_metadata : option (gmap string pyval);
  cc_created_at : string;
  cc_updated_at : string;
  last_conversation_at : option string;
}.

Definition set_conversation_ids (v : option (list string)) (r : ConversationContext) : ConversationContext :=
  {| cc_user_id := cc_user_id r; context_type := context_type r;
     context_key := context_key r; title := title r;
     description := description r; status := status r;
     conversation_ids := v; key_facts := key_facts r;
     decisions_made := decisions_made r; action_items := action_items r;
     cc_metadata := cc_metadata r; cc_created_at := cc_created_at r;
     cc_updated_at := cc_updated_at r;
     last_conversation_at := last_conversation_at r |}.

Definition set_key_facts (v : option (list string)) (r : ConversationContext) : ConversationContext :=
  {| cc_user_id := cc_user_id r; context_type := context_type r;
     context_key := context_key r; title := title r;
     description := description r; status := status r;
     conversation_ids := conversation_ids r; key_facts := v;
     decisions_made := decisions_made r; action_items := action_items r;
     cc_metadata := cc_metadata r; cc_created_at := cc_created_at r;
     cc_updated_at := cc_updated_at r;
     last_conversation_at := last_conversation_at r |}.

Definition set_decisions_made (v : option (list string)) (r : ConversationContext) : ConversationContext :=
  {| cc_user_id := cc_user_id r; context_type := context_type r;
     context_key := context_key r; title := title r;
     description := description r; status := status r;
     conversation_ids := conversation_ids r; key_facts := key_facts r;
     decisions_made := v; action_items := action_items r;
     cc_metadata := cc_metadata r; cc_created_at := cc_created_at r;
     cc_updated_at := cc_updated_at r;
     last_conversation_at := last_conversation_at r |}.

Definition set_action_items (v : option (list string)) (r : ConversationContext) : ConversationContext :=
  {| cc_user_id := cc_user_id r; context_type := context_type r;
     context_key := context_key r; title := title r;
     description := description r; status := status r;
     conversation_ids := conversation_ids r; key_facts := key_facts r;
     decisions_made := decisions_made r; action_items := v;
     cc_metadata := cc_metadata r; cc_created_at := cc_created_at r;
     cc_updated_at := cc_updated_at r;
     last_conversation_at := last_conversation_at r |}.

Definition set_cc_updated_at (v : string) (r : ConversationContext) : ConversationContext :=
  {| cc_user_id := cc_user_id r; context_type := context_type r;
     context_key := context_key r; title := title r;
     description := description r; status := status r;
     conversation_ids := conversation_ids r; key_facts := key_facts r;
     decisions_made := decisions_made r; action_items := action_items r;
     cc_metadata := cc_metadata r; cc_created_at := cc_created_at r;
     cc_updated_at := v; last_conversation_at := last_conversation_at r |}.

Definition set_last_conversation_at (v : option string) (r : ConversationContext) : ConversationContext :=
  {| cc_user_id := cc_user_id r; context_type := context_type r;
     context_key := context_key r; title := title r;
     description := description r; status := status r;
     conversation_ids := conversation_ids r; key_facts := key_facts r;
     decisions_made := decisions_made r; action_items := action_items r;
     cc_metadata := cc_metadata r; cc_created_at := cc_created_at r;
     cc_updated_at := cc_updated_at r; last_conversation_at := v |}.

(** The three tables.  [user_memories.user_id] is declared unique, so that
    table is a map from user ids; the other two carry no uniqueness
    constraint and are lists of rows. *)
Record DB : Type := mk_DB {
  user_memories : gmap string UserMemory;
  memory_entries : list MemoryEntry;
  conversation_contexts : list ConversationContext;
}.

Definition set_user_memories (v : gmap string UserMemory) (db : DB) : DB :=
  {| user_memories := v; memory_entries := memory_entries db;
     conversation_contexts := conversation_contexts db |}.

Definition set_memory_entries (v : list MemoryEntry) (db : DB) : DB :=
  {| user_memories := user_memories db; memory_entries := v;
     conversation_contexts := conversation_contexts db |}.

Definition set_conversation_contexts (v : list ConversationContext) (db : DB) : DB :=
  {| user_memories := user_memories db; memory_entries := memory_entries db;
     conversation_contexts := v |}.

(** The row of [user_id] after [db.commit()]; [memory] carries the
    attributes that the commit wrote, see [written]. *)
Definition commit_memory (db : DB) (user_id : string) (memory : UserMemory) : DB :=
  set_user_memories (<[user_id := memory]> (user_memories db)) db.

(** [UserMemory(user_id=user_id)] with the column defaults. *)
Definition new_user_memory (user_id now : string) : UserMemory :=
  {| um_user_id := user_id; employee_facts := Some ∅; team_info := Some ∅;
     company_knowledge := Some ∅; active_projects := Some [];
     project_history := Some []; conversation_summaries := Some [];
     domain_expertise := Some ∅; tech_preferences := Some ∅;
     learning_progress := Some ∅; frequent_topics := Some [];
     custom_notes := None; total_conversations := 0; total_messages := 0;
     last_interaction := None; um_created_at := now; updated_at := now |}.

Definition get_or_create_user_memory (db : DB) (user_id now : string)
    : DB * UserMemory :=
  match user_memories db !! user_id with
  | Some memory => (db, memory)
  | None =>
      let memory := new_user_memory user_id now in
      (commit_memory db user_id memory, memory)
  end.

(** *** Attributes of a loaded row *)

(** An attribute of a loaded row during a call: the value it holds, and
    whether the call assigned it ([row.x = v]).  The session leaves an
    assigned attribute out of the UPDATE when the new value equals the
    value of the object it replaced.  The assignments of this service
    either replace an object that was not changed in place, where leaving
    the attribute out changes nothing, or assign a strictly shorter list
    (the two truncations), so [assigned] decides what is written. *)
Record attr (A : Type) : Type := mk_attr {
  held : A;
  assigned : bool;
}.
Global Arguments mk_attr {A} held assigned.
Global Arguments held {A} a.
Global Arguments assigned {A} a.

(** [row.x = v] *)
Definition assign {A} (v : A) (a : attr A) : attr A := mk_attr v true.

(** A change in place of the list or dictionary that the attribute
    holds: the session does not see it. *)
Definition in_place {A} (f : A → A) (a : attr A) : attr A :=
  mk_attr (f (held a)) (assigned a).

(** [if not row.x: row.x = []] on a nullable JSON list column, then the
    attribute as the rest of the call sees it. *)
Definition list_or_new {A} (column : option (list A)) : attr (list A) :=
  match column with
  | Some ((_ :: _) as l) => mk_attr l false
  | _ => mk_attr [] true
  end.

(** The column after [db.commit()] and [db.refresh]. *)
Definition written {A} (column : option A) (a : attr A) : option A :=
  if assigned a then Some (held a) else column.

(** *** Field-level updates *)

(** [d or {}] on a nullable JSON object column. *)
Definition or_empty (x : option (gmap string pyval)) : gmap string pyval :=
  default ∅ x.

(** [p.get('name')]: [None] when the key is missing. *)
Definition get_name (p : gmap string pyval) : pyval :=
  default (PAtom ANone) (p !! "name").

(** Truth value of a dictionary: empty dictionaries are falsy. *)
Definition dict_truthy (d : gmap string pyval) : bool :=
  negb (bool_decide (d = ∅)).

(** [if not row.x: row.x = {}] on a nullable JSON object column. *)
Definition dict_or_new (column : option (gmap string pyval))
    : attr (gmap string pyval) :=
  match column with
  | Some d => if dict_truthy d then mk_attr d false else mk_attr ∅ true
  | None => mk_attr ∅ true
  end.

(** [next((p for p in projects if p.get('name') == name), None)] *)
Definition find_project (name : pyval) (projects : list (gmap string pyval))
    : option (nat * gmap string pyval) :=
  list_find (λ p, get_name p = name) projects.

(** [existing.update(project)] when a truthy match exists, else
    [active_projects.append(project)]. *)
Definition upsert_project (projects : list (gmap string pyval))
    (project : gmap string pyval) : list (gmap string pyval) :=
  match find_project (get_name project) projects with
  | Some (i, existing) =>
      if dict_truthy existing then <[i := project ∪ existing]> projects
      else projects ++ [project]
  | None => projects ++ [project]
  end.

(** [l.remove(x)]: drops the first element equal to [x]. *)
Fixpoint list_remove_first (x : gmap string pyval) (l : list (gmap string pyval))
    : list (gmap string pyval) :=
  match l with
  | [] => []
  | y :: l' => if decide (y = x) then l' else y :: list_remove_first x l'
  end.

(** The update of [add_frequent_topic], lines 228-233: the topic is
    appended in place, and a list of more than 20 topics is replaced by
    its last 20, an assignment. *)
Definition add_topic (topics : attr (list string)) (topic : string)
    : attr (list string) :=
  if decide (topic ∈ held topics) then topics
  else
    let topics := in_place (λ l, l ++ [topic]) topics in
    if decide (20 < length (held topics))%nat
    then assign (last_n 20 (held topics)) topics
    else topics.

(** The characters of a string, as one-character strings. *)
Fixpoint chars (s : string) : list string :=
  match s with
  | EmptyString => []
  | String c s' => String c EmptyString :: chars s'
  end.

(** [set(v)]: a list gives its elements, a string its characters; [None]
    and integers are not iterable. *)
Definition py_set (v : pyval) : result (gset atom) :=
  match v with
  | PList l => Ok (list_to_set l)
  | PAtom (AStr s) => Ok (list_to_set (AStr <$> chars s))
  | PAtom _ => Raise TypeError
  end.

Section with_runtime.
Context `{Runtime}.

(** The value that one iteration of the loop of
    [update_domain_expertise] stores under [key]: a list under a key that
    is present goes through [set(...)], [update] and [list(...)]; anything
    else is stored as it is. *)
Definition merged_value (old : option pyval) (value : pyval) : result pyval :=
  match value, old with
  | PList new, Some o =>
      let* existing := py_set o in
      Ok (PList (list_of_set (existing ∪ list_to_set new)))
  | _, _ => Ok value
  end.

Definition merge_expertise_item (d : gmap string pyval) (kv : string * pyval)
    : result (gmap string pyval) :=
  let* x := merged_value (d !! kv.1) kv.2 in
  Ok (<[kv.1 := x]> d).

(** The loop body, once an earlier iteration may have raised. *)
Definition merge_step (acc : result (gmap string pyval)) (kv : string * pyval)
    : result (gmap string pyval) :=
  let* d' := acc in merge_expertise_item d' kv.

(** [for key, value in expertise.items(): ...] *)
Definition merge_expertise (d expertise : gmap string pyval)
    : result (gmap string pyval) :=
  foldl merge_step (Ok d) (map_to_list expertise).

(** *** Memory entries *)

Definition entry_matches (user_id category_ key_ : string) (e : MemoryEntry) : bool :=
  bool_decide (me_user_id e = user_id)
  && bool_decide (category e = category_)
  && bool_decide (key e = key_).

(** [result.scalar_one_or_none()] *)
Definition scalar_one_or_none {A} (rows : list A) : result (option A) :=
  match rows with
  | [] => Ok None
  | [r] => Ok (Some r)
  | _ => Raise MultipleResultsFound
  end.

(** The state of a database call: the committed tables, and either the
    returned object or the exception that left the call. *)
Definition outcome (A : Type) : Type := DB * result A.

(** [add_memory_entry]; [tags] and [metadata] are optional arguments and
    [source_conversation_id] is only used for a new row. *)
Definition add_memory_entry (db : DB) (user_id category_ key_ value_ : string)
    (source_conversation_id_ : option string) (confidence_ : Z)
    (tags_ : option (list string)) (metadata_ : option (gmap string pyval))
    (now : string) : outcome MemoryEntry :=
  let matching := List.filter (entry_matches user_id category_ key_) (memory_entries db) in
  match scalar_one_or_none matching with
  | Raise e => (db, Raise e)
  | Ok (Some existing) =>
      let e1 := set_me_updated_at now (set_confidence confidence_ (set_value value_ existing)) in
      let e2 :=
        match tags_ with
        | Some ((_ :: _) as ts) =>
            set_tags (Some (list_of_set
              (list_to_set (or_nil (tags existing)) ∪ list_to_set ts))) e1
        | _ => e1
        end in
      let e3 :=
        match metadata_ with
        | Some md =>
            if dict_truthy md
            then set_me_metadata (Some (md ∪ or_empty (me_metadata existing))) e2
            else e2
        | None => e2
        end in
      let rows :=
        (λ e, if entry_matches user_id category_ key_ e then e3 else e)
          <$> memory_entries db in
      (set_memory_entries rows db, Ok e3)
  | Ok None =>
      let entry :=
        {| me_user_id := user_id; category := category_; key := key_;
           value := value_; source_conversation_id := source_conversation_id_;
           confidence := confidence_; tags := Some (or_nil tags_);
           me_metadata := Some (or_empty metadata_);
           me_created_at := now; me_updated_at := now; expires_at := None |} in
      (set_memory_entries (memory_entries db ++ [entry]) db, Ok entry)
  end.

(** *** Mutators of the memory profile *)

(** The loop of [update_employee_facts] (lines 62-66); it stops at the
    first exception. *)
Fixpoint add_fact_entries (db : DB) (user_id : string)
    (items : list (string * pyval)) (now : string) : outcome unit :=
  match items with
  | [] => (db, Ok tt)
  | (k, v) :: rest =>
      match add_memory_entry db user_id "employee" k (py_str v) None 100
              (Some ["employee"; "profile"]) None now with
      | (db', Ok _) => add_fact_entries db' user_id rest now
      | (db', Raise e) => (db', Raise e)
      end
  end.

Definition update_employee_facts (db : DB) (user_id : string)
    (facts : gmap string pyval) (now : string) : outcome UserMemory :=
  let '(db, memory) := get_or_create_user_memory db user_id now in
  let facts_ := in_place (λ d, facts ∪ d) (dict_or_new (employee_facts memory)) in
  let memory :=
    set_updated_at now
      (set_employee_facts (written (employee_facts memory) facts_) memory) in
  let db := commit_memory db user_id memory in
  match add_fact_entries db user_id (map_to_list facts) now with
  | (db', Ok _) => (db', Ok memory)
  | (db', Raise e) => (db', Raise e)
  end.

Definition update_team_info (db : DB) (user_id : string)
    (team_info_ : gmap string pyval) (now : string) : outcome UserMemory :=
  let '(db, memory) := get_or_create_user_memory db user_id now in
  let memory := set_updated_at now (set_team_info (Some team_info_) memory) in
  (commit_memory db user_id memory, Ok memory).

Definition add_active_project (db : DB) (user_id : string)
    (project : gmap string pyval) (now : string) : outcome UserMemory :=
  let '(db, memory) := get_or_create_user_memory db user_id now in
  let projects :=
    in_place (λ l, upsert_project l project)
      (list_or_new (active_projects memory)) in
  let memory :=
    set_updated_at now
      (set_active_projects (written (active_projects memory) projects) memory) in
  let db := commit_memory db user_id memory in
  match add_memory_entry db user_id "project"
          ("active_project_" +:+ py_str (get_name project))
          (json_dumps project) None 100 (Some ["project"; "active"]) None now with
  | (db', Ok _) => (db', Ok memory)
  | (db', Raise e) => (db', Raise e)
  end.

Definition complete_project (db : DB) (user_id : string) (project_name : string)
    (completion_data : gmap string pyval) (now : string) : outcome UserMemory :=
  let '(db, memory) := get_or_create_user_memory db user_id now in
  let projects := list_or_new (active_projects memory) in
  let memory :=
    match find_project (PAtom (AStr project_name)) (held projects) with
    | Some (_, project) =>
        if dict_truthy project then
          let projects := in_place (list_remove_first project) projects in
          let history := list_or_new (project_history memory) in
          let done_ := <["completed_at" := PAtom (AStr now)]> (completion_data ∪ project) in
          let history := in_place (λ l, l ++ [done_]) history in
          set_project_history (written (project_history memory) history)
            (set_active_projects (written (active_projects memory) projects) memory)
        else set_active_projects (written (active_projects memory) projects) memory
    | None => set_active_projects (written (active_projects memory) projects) memory
    end in
  let memory := set_updated_at now memory in
  (commit_memory db user_id memory, Ok memory).

Definition add_conversation_summary (db : DB) (user_id : string)
    (topic resolution : string) (additional_context : option (gmap string pyval))
    (now : string) : outcome UserMemory :=
  let '(db, memory) := get_or_create_user_memory db user_id now in
  let summary : gmap string pyval :=
    {[ "topic" := PAtom (AStr topic); "resolution" := PAtom (AStr resolution);
       "date" := PAtom (AStr now) ]} in
  let summary := default ∅ additional_context ∪ summary in
  let summaries :=
    in_place (λ l, l ++ [summary]) (list_or_new (conversation_summaries memory)) in
  let summaries :=
    if decide (50 < length (held summaries))%nat
    then assign (last_n 50 (held summaries)) summaries
    else summaries in
  let memory :=
    set_updated_at now
      (set_conversation_summaries
         (written (conversation_summaries memory) summaries) memory) in
  (commit_memory db user_id memory, Ok memory).

(** A [TypeError] leaves [update_domain_expertise] before its commit. *)
Definition update_domain_expertise (db : DB) (user_id : string)
    (expertise : gmap string pyval) (now : string) : outcome UserMemory :=
  let '(db, memory) := get_or_create_user_memory db user_id now in
  let stored := dict_or_new (domain_expertise memory) in
  match merge_expertise (held stored) expertise with
  | Ok d =>
      let merged := in_place (λ _, d) stored in
      let memory :=
        set_updated_at now
          (set_domain_expertise (written (domain_expertise memory) merged) memory) in
      (commit_memory db user_id memory, Ok memory)
  | Raise e => (db, Raise e)
  end.

Definition add_frequent_topic (db : DB) (user_id : string) (topic : string)
    (now : string) : outcome UserMemory :=
  let '(db, memory) := get_or_create_user_memory db user_id now in
  let topics := add_topic (list_or_new (frequent_topics memory)) topic in
  let memory :=
    set_updated_at now
      (set_frequent_topics (written (frequent_topics memory) topics) memory) in
  (commit_memory db user_id memory, Ok memory).

(** The column [total_messages] is declared [Integer]: the store holds
    32-bit values and rejects an UPDATE with a larger one. *)
Definition fits_integer (z : Z) : bool :=
  (-2147483648 <=? z) && (z <=? 2147483647).

(** [record_interaction] does not assign [updated_at]; the column is
    declared with [onupdate=datetime.utcnow], which sets it in the UPDATE
    that the commit sends.  When the store rejects the UPDATE the commit
    raises and nothing is written. *)
Definition record_interaction (db : DB) (user_id now : string) : outcome unit :=
  let '(db, memory) := get_or_create_user_memory db user_id now in
  let total := total_messages memory + 1 in
  if fits_integer total then
    let memory :=
      set_updated_at now
        (set_total_messages total (set_last_interaction (Some now) memory)) in
    (commit_memory db user_id memory, Ok tt)
  else (db, Raise DBAPIError).

(** *** Conversation contexts *)

Definition context_matches (user_id context_key_ : string)
    (c : ConversationContext) : bool :=
  bool_decide (cc_user_id c = user_id) && bool_decide (context_key c = context_key_).

(** [title or context_key] *)
Definition title_or (title_ : option string) (context_key_ : string) : string :=
  match title_ with
  | Some t => if decide (t = EmptyString) then context_key_ else t
  | None => context_key_
  end.

Definition new_context (user_id context_type_ context_key_ title_ now : string)
    : ConversationContext :=
  {| cc_user_id := user_id; context_type := context_type_;
     context_key := context_key_; title := title_; description := None;
     status := "active"; conversation_ids := Some []; key_facts := Some [];
     decisions_made := Some []; action_items := Some [];
     cc_metadata := Some ∅; cc_created_at := now; cc_updated_at := now;
     last_conversation_at := None |}.

Definition get_or_create_conversation_context (db : DB)
    (user_id context_key_ context_type_ : string) (title_ : option string)
    (now : string) : outcome ConversationContext :=
  let matching := List.filter (context_matches user_id context_key_) (conversation_contexts db) in
  match scalar_one_or_none matching with
  | Raise e => (db, Raise e)
  | Ok (Some context) => (db, Ok context)
  | Ok None =>
      let context :=
        new_context user_id context_type_ context_key_
          (title_or title_ context_key_) now in
      (set_conversation_contexts (conversation_contexts db ++ [context]) db,
       Ok context)
  end.

(** [if xs: if not row.x: row.x = []; row.x.extend(xs)], and the column
    after the commit. *)
Definition extend_if_given (column : option (list string))
    (xs : option (list string)) : option (list string) :=
  match xs with
  | Some ((_ :: _) as l) =>
      written column (in_place (λ c, c ++ l) (list_or_new column))
  | _ => column
  end.

(** The row of the context after the update of
    [add_conversation_to_context], lines 367-389, its commit and its
    refresh; [conversation_id] is the string form of the UUID. *)
Definition link_conversation (context : ConversationContext)
    (conversation_id : string) (key_facts_ decisions_ action_items_ : option (list string))
    (now : string) : ConversationContext :=
  let ids := list_or_new (conversation_ids context) in
  let ids :=
    if decide (conversation_id ∈ held ids) then ids
    else in_place (λ l, l ++ [conversation_id]) ids in
  set_cc_updated_at now
    (set_last_conversation_at (Some now)
      (set_action_items (extend_if_given (action_items context) action_items_)
        (set_decisions_made (extend_if_given (decisions_made context) decisions_)
          (set_key_facts (extend_if_given (key_facts context) key_facts_)
            (set_conversation_ids (written (conversation_ids context) ids)
               context))))).

Definition add_conversation_to_context (db : DB)
    (user_id context_key_ conversation_id : string)
    (key_facts_ decisions_ action_items_ : option (list string)) (now : string)
    : outcome ConversationContext :=
  match get_or_create_conversation_context db user_id context_key_ "project" None now with
  | (db, Raise e) => (db, Raise e)
  | (db, Ok context) =>
      let context' :=
        link_conversation context conversation_id key_facts_ decisions_
          action_items_ now in
      let rows :=
        (λ c, if context_matches user_id context_key_ c then context' else c)
          <$> conversation_contexts db in
      (set_conversation_contexts rows db, Ok context')
  end.

End with_runtime.

(** *** Reading the tables (specification side) *)

Definition empty_db : DB :=
  {| user_memories := ∅; memory_entries := []; conversation_contexts := [] |}.

Definition topics_of (db : DB) (user_id : string) : list string :=
  match user_memories db !! user_id with
  | Some memory => or_nil (frequent_topics memory)
  | None => []
  end.

(** The topics of a user after [add_frequent_topic]: the topic is stored in
    an empty list; in a list that holds other topics it is only stored
    when the list passes 20 entries and is cut. *)
Definition topics_after (topics : list string) (topic : string) : list string :=
  match topics with
  | [] => [topic]
  | _ =>
      if decide (topic ∈ topics) then topics
      else if decide (20 < length topics + 1)%nat
           then last_n 20 (topics ++ [topic])
           else topics
  end.

Definition projects_of (db : DB) (user_id : string) : list (gmap string pyval) :=
  match user_memories db !! user_id with
  | Some memory => or_nil (active_projects memory)
  | None => []
  end.

Definition expertise_of (db : DB) (user_id : string) : gmap string pyval :=
  match user_memories db !! user_id with
  | Some memory => or_empty (domain_expertise memory)
  | None => ∅
  end.

Definition team_info_of (db : DB) (user_id : string) : gmap string pyval :=
  match user_memories db !! user_id with
  | Some memory => or_empty (team_info memory)
  | None => ∅
  end.

(** The projects whose [get('name')] is [n]. *)
Definition named (n : pyval) (projects : list (gmap string pyval))
    : list (gmap string pyval) :=
  filter (λ p, get_name p = n) projects.

(** The rows of [memory_entries] with the key [(user_id, category, key)]. *)
Definition entries_for (db : DB) (user_id category_ key_ : string)
    : list MemoryEntry :=
  List.filter (entry_matches user_id category_ key_) (memory_entries db).

(** At most one row per key [(user_id, category, key)]: the state of the
    table when all its rows were written by [add_memory_entry]. *)
Definition entries_unique (db : DB) : Prop :=
  ∀ user_id category_ key_,
    (length (entries_for db user_id category_ key_) ≤ 1)%nat.

(** The rows of [conversation_contexts] with the key [(user_id, context_key)]. *)
Definition contexts_for (db : DB) (user_id context_key_ : string)
    : list ConversationContext :=
  List.filter (context_matches user_id context_key_) (conversation_contexts db).

(** The context stored for [(user_id, context_key)], or the one that the
    next [get_or_create_conversation_context] creates at time [now]. *)
Definition context_before (db : DB) (user_id context_key_ now : string)
    : ConversationContext :=
  default (new_context user_id "project" context_key_ (title_or None context_key_) now)
          (head (contexts_for db user_id context_key_)).

End Memory.

(** ** Knowledge graph: [services/knowledge_graph_service.py] *)

Module KG.

(** The node map [{id, name, type}] that the path query returns. *)
Record node : Type := mk_node {
  node_id : string;
  node_name : string;
  node_type : string;
}.

(** A record of the query of [get_entity_path]: [path_nodes] and the
    types of [path_relationships]. *)
Record path_record : Type := mk_path_record {
  path_nodes : list node;
  path_relationships : list string;
}.

(** The dictionary that [get_entity_path] returns for a path. *)
Record entity_path : Type := mk_entity_path {
  nodes : list node;
  relationships_of : list string;
}.

(** The graph store behind the driver: what [session.run] yields for the
    shortest-path query with the parameters [source_id], [target_id] and
    [max_depth], either the records or the driver's exception. *)
Class GraphStore : Type := {
  run_shortest_path : string → string → Z → result (list path_record);
}.

(** [await result.single()]: the first record, [None] without records. *)
Definition single {A} (records : list A) : option A := head records.

(** [get_entity_path]: a record is a non-empty tuple, hence truthy. *)
Definition get_entity_path `{GraphStore} (source_id target_id : string)
    (max_depth : Z) : result (option entity_path) :=
  let* records := run_shortest_path source_id target_id max_depth in
  match single records with
  | Some record =>
      Ok (Some {| nodes := path_nodes record;
                  relationships_of := path_relationships record |})
  | None => Ok None
  end.

End KG.

(** ** Concrete data used by the examples *)

Module Examples.
Import RAG.

Definition chunk_A_vector : chunk_doc :=
  mk_chunk_doc "A" "renewal terms" 0 ∅ "d1" "Policy guide" "guide.pdf"
    "application/pdf" (9 # 10) None.
Definition chunk_A_keyword : chunk_doc :=
  mk_chunk_doc "A" "renewal terms" 0 ∅ "d1" "Policy guide" "guide.pdf"
    "application/pdf" (4 # 10) None.
Definition chunk_B_keyword : chunk_doc :=
  mk_chunk_doc "B" "rating tables" 1 ∅ "d1" "Policy guide" "guide.pdf"
    "application/pdf" (3 # 10) None.

(** A store with one private chunk: its document is shared with the team
    [finance] only and is not public.  Every chunk matches every query. *)
Definition private_row : chunk_row :=
  {| dc_id := "c1"; dc_content := "quarterly payroll figures";
     dc_chunk_index := 0; dc_metadata_json := ∅; dc_embedding := Some [1%Q];
     d_id := "d1"; d_title := "Payroll"; d_filename := "payroll.pdf";
     d_mime_type := "application/pdf"; d_tags := ["hr"];
     d_team_access := ["finance"]; d_is_public := false |}.

Definition demo_store : ChunkStoreOps :=
  {| get_embeddings := λ texts, Ok ((λ _, [1%Q]) <$> texts);
     cosine_distance := λ _ _, 0%Q;
     ilike := λ _ _, true;
     trgm_similarity := λ _ _, Some (1 # 2) |}.

(** A runtime whose sets iterate in the order of [elements]; the texts of
    [repr] and [json.dumps] play no role in the examples. *)
Definition demo_runtime : Runtime :=
  {| list_of_set := λ A _ _ X, elements X;
     list_of_set_perm := λ A _ _ X, reflexivity (elements X);
     repr_list := λ l, "[" +:+ pretty (length l) +:+ " items]";
     json_dumps := λ d, "{" +:+ pretty (size d) +:+ " keys}" |}.

Definition project_planned : gmap string pyval :=
  {[ "name" := PAtom (AStr "WC Migration"); "status" := PAtom (AStr "planned");
     "lead" := PAtom (AStr "Alice") ]}.

Definition project_in_progress : gmap string pyval :=
  {[ "name" := PAtom (AStr "WC Migration");
     "status" := PAtom (AStr "in_progress") ]}.

Definition states_ca : gmap string pyval :=
  {[ "states_worked" := PList [AStr "CA"] ]}.

Definition states_ca_ny : gmap string pyval :=
  {[ "states_worked" := PList [AStr "CA"; AStr "NY"] ]}.

Definition sales_only : filters :=
  {| f_document_type := None; f_tags := None; f_team := Some "sales" |}.

End Examples.

(** ** The memory service as a sequence of calls *)

Module Service.
Import Memory.

(** [get_memory_entries]: the user's entries, optionally narrowed to a
    category and to the entries that carry one of the tags.  An empty
    category and an empty tag list are falsy and do not filter. *)
Definition get_memory_entries (db : DB) (user_id : string)
    (category_ : option string) (tags_ : option (list string))
    : list MemoryEntry :=
  let entries :=
    List.filter (λ e, bool_decide (me_user_id e = user_id)) (memory_entries db) in
  let entries :=
    match category_ with
    | Some c =>
        if decide (c = EmptyString) then entries
        else List.filter (λ e, bool_decide (category e = c)) entries
    | None => entries
    end in
  match tags_ with
  | Some ((_ :: _) as ts) =>
      List.filter
        (λ e, existsb (λ tag, bool_decide (tag ∈ or_nil (tags e))) ts) entries
  | _ => entries
  end.

(** The public methods of [MemoryService] that write. *)
Inductive call : Type :=
| UpdateEmployeeFacts (user_id : string) (facts : gmap string pyval)
| UpdateTeamInfo (user_id : string) (team_info_ : gmap string pyval)
| AddActiveProject (user_id : string) (project : gmap string pyval)
| CompleteProject (user_id project_name : string)
    (completion_data : gmap string pyval)
| AddConversationSummary (user_id topic resolution : string)
    (additional_context : option (gmap string pyval))
| UpdateDomainExpertise (user_id : string) (expertise : gmap string pyval)
| AddFrequentTopic (user_id topic : string)
| AddMemoryEntry (user_id category_ key_ value_ : string)
    (source_conversation_id_ : option string) (confidence_ : Z)
    (tags_ : option (list string)) (metadata_ : option (gmap string pyval))
| RecordInteraction (user_id : string)
| GetOrCreateConversationContext (user_id context_key_ context_type_ : string)
    (title_ : option string)
| AddConversationToContext (user_id context_key_ conversation_id : string)
    (key_facts_ decisions_ action_items_ : option (list string)).

Definition call_user (c : call) : string :=
  match c with
  | UpdateEmployeeFacts u _ | UpdateTeamInfo u _ | AddActiveProject u _
  | CompleteProject u _ _ | AddConversationSummary u _ _ _
  | UpdateDomainExpertise u _ | AddFrequentTopic u _
  | AddMemoryEntry u _ _ _ _ _ _ _ | RecordInteraction u
  | GetOrCreateConversationContext u _ _ _
  | AddConversationToContext u _ _ _ _ _ => u
  end.

(** The tables after a call, and whether it returned or raised. *)
Definition finish {A} (o : outcome A) : DB * result unit :=
  (o.1, match o.2 with Ok _ => Ok tt | Raise e => Raise e end).

Definition run_call `{Runtime} (db : DB) (c : call) (now : string)
    : DB * result unit :=
  match c with
  | UpdateEmployeeFacts u facts => finish (update_employee_facts db u facts now)
  | UpdateTeamInfo u info => finish (update_team_info db u info now)
  | AddActiveProject u project => finish (add_active_project db u project now)
  | CompleteProject u name data => finish (complete_project db u name data now)
  | AddConversationSummary u topic resolution extra =>
      finish (add_conversation_summary db u topic resolution extra now)
  | UpdateDomainExpertise u expertise =>
      finish (update_domain_expertise db u expertise now)
  | AddFrequentTopic u topic => finish (add_frequent_topic db u topic now)
  | AddMemoryEntry u c k v src conf ts md =>
      finish (add_memory_entry db u c k v src conf ts md now)
  | RecordInteraction u => finish (record_interaction db u now)
  | GetOrCreateConversationContext u k t title_ =>
      finish (get_or_create_conversation_context db u k t title_ now)
  | AddConversationToContext u k cid f d a =>
      finish (add_conversation_to_context db u k cid f d a now)
  end.

(** A run of calls, each with its clock reading; a call that raises leaves
    the tables as it committed them, and the run goes on. *)
Definition run_calls `{Runtime} (db : DB) (calls : list (call * string)) : DB :=
  foldl (λ db c, (run_call db c.1 c.2).1) db calls.

(** At most one context per key [(user_id, context_key)]. *)
Definition contexts_unique (db : DB) : Prop :=
  ∀ user_id context_key_,
    (length (contexts_for db user_id context_key_) ≤ 1)%nat.

Definition summaries_of (db : DB) (user_id : string) : list (gmap string pyval) :=
  match user_memories db !! user_id with
  | Some memory => or_nil (conversation_summaries memory)
  | None => []
  end.

Definition history_of (db : DB) (user_id : string) : list (gmap string pyval) :=
  match user_memories db !! user_id with
  | Some memory => or_nil (project_history memory)
  | None => []
  end.


(** The summary dictionary that [add_conversation_summary] appends. *)
Definition summary_of (topic resolution : string)
    (additional_context : option (gmap string pyval)) (now : string)
    : gmap string pyval :=
  default ∅ additional_context
  ∪ {[ "topic" := PAtom (AStr topic); "resolution" := PAtom (AStr resolution);
       "date" := PAtom (AStr now) ]}.

(** The summaries of a user after [add_conversation_summary] built [s]:
    it is stored in an empty list; in a list that holds summaries it is
    only stored when the list passes 50 entries and is cut. *)
Definition summaries_after (summaries : list (gmap string pyval))
    (s : gmap string pyval) : list (gmap string pyval) :=
  match summaries with
  | [] => [s]
  | _ =>
      if decide (50 < length summaries + 1)%nat
      then last_n 50 (summaries ++ [s])
      else summaries
  end.

(** The history record that [complete_project] appends. *)
Definition completed (project completion_data : gmap string pyval) (now : string)
    : gmap string pyval :=
  <["completed_at" := PAtom (AStr now)]> (completion_data ∪ project).

(** The profile row that a call of [user_id] works on: the stored one, or
    the one that [get_or_create_user_memory] creates. *)
Definition loaded (db : DB) (user_id now : string) : UserMemory :=
  default (new_user_memory user_id now) (user_memories db !! user_id).

(** The two rows that [add_memory_entry] can write: the existing row after
    its update, and the new row. *)
Definition updated_entry `{Runtime} (existing : MemoryEntry) (value_ : string)
    (confidence_ : Z) (tags_ : option (list string))
    (metadata_ : option (gmap string pyval)) (now : string) : MemoryEntry :=
  let e1 :=
    set_me_updated_at now (set_confidence confidence_ (set_value value_ existing)) in
  let e2 :=
    match tags_ with
    | Some ((_ :: _) as ts) =>
        set_tags (Some (list_of_set
          (list_to_set (or_nil (tags existing)) ∪ list_to_set ts))) e1
    | _ => e1
    end in
  match metadata_ with
  | Some md =>
      if dict_truthy md
      then set_me_metadata (Some (md ∪ or_empty (me_metadata existing))) e2
      else e2
  | None => e2
  end.

Definition new_entry (user_id category_ key_ value_ : string)
    (source_conversation_id_ : option string) (confidence_ : Z)
    (tags_ : option (list string)) (metadata_ : option (gmap string pyval))
    (now : string) : MemoryEntry :=
  {| me_user_id := user_id; category := category_; key := key_;
     value := value_; source_conversation_id := source_conversation_id_;
     confidence := confidence_; tags := Some (or_nil tags_);
     me_metadata := Some (or_empty metadata_);
     me_created_at := now; me_updated_at := now; expires_at := None |}.

(** The summary that a call appends to the profile of [user_id], if any. *)
Definition appended_summary (user_id : string) (c : call) (now : string)
    : option (gmap string pyval) :=
  match c with
  | AddConversationSummary u topic resolution extra =>
      if decide (u = user_id) then Some (summary_of topic resolution extra now)
      else None
  | _ => None
  end.

(** Whether a call is [record_interaction] for [user_id]. *)
Definition records_interaction (user_id : string) (c : call) : bool :=
  match c with
  | RecordInteraction u => bool_decide (u = user_id)
  | _ => false
  end.

Definition messages_of (db : DB) (user_id : string) : Z :=
  match user_memories db !! user_id with
  | Some memory => total_messages memory
  | None => 0
  end.

(** The id list and the fact list of the context stored for a key; empty
    when there is no such context. *)
Definition context_ids (db : DB) (user_id context_key_ : string) : list string :=
  from_option (λ c, or_nil (conversation_ids c)) []
    (head (contexts_for db user_id context_key_)).

Definition context_facts (db : DB) (user_id context_key_ : string) : list string :=
  from_option (λ c, or_nil (key_facts c)) []
    (head (contexts_for db user_id context_key_)).

(** A run of [add_conversation_to_context] calls on one key; each link is
    the conversation id, the key facts and the clock reading. *)
Definition link_all (db : DB) (user_id context_key_ : string)
    (links : list (string * option (list string) * string)) : DB :=
  foldl (λ db l,
           (add_conversation_to_context db user_id context_key_ l.1.1 l.1.2
              None None l.2).1)
        db links.

(** The first non-empty list of key facts among the links. *)
Fixpoint first_given (links : list (string * option (list string) * string))
    : list string :=
  match links with
  | [] => []
  | l :: links' =>
      match or_nil l.1.2 with
      | [] => first_given links'
      | facts => facts
      end
  end.

(** Whether a call writes to [memory_entries], to
    [conversation_contexts]. *)
Definition writes_entries (c : call) : bool :=
  match c with
  | UpdateEmployeeFacts _ _ | AddActiveProject _ _
  | AddMemoryEntry _ _ _ _ _ _ _ _ => true
  | _ => false
  end.

Definition writes_contexts (c : call) : bool :=
  match c with
  | GetOrCreateConversationContext _ _ _ _
  | AddConversationToContext _ _ _ _ _ _ => true
  | _ => false
  end.

(** *** [get_memory_context_for_llm] *)

(** [all(isinstance(a, str) for a in l)] *)
Definition all_strings (l : list atom) : bool :=
  forallb (λ a, match a with AStr _ => true | _ => false end) l.

(** Whether [', '.join(v)] returns: [v] is a string or a list of
    strings; anything else raises a [TypeError]. *)
Definition joinable (v : pyval) : bool :=
  match v with
  | PList l => all_strings l
  | PAtom (AStr _) => true
  | PAtom _ => false
  end.

(** Whether the sections of the profile can be rendered: every list of
    [team_info] is joined (lines 419-424), and so are the values of
    [domain_expertise] under the three keys that are shown (lines
    437-445).  Everything else is formatted with [str]. *)
Definition renders (memory : UserMemory) : bool :=
  forallb (λ kv, match kv.2 with PList l => all_strings l | PAtom _ => true end)
          (map_to_list (or_empty (team_info memory)))
  && forallb (λ key, from_option joinable true
                       (or_empty (domain_expertise memory) !! key))
             ["familiar_class_codes"; "states_worked"; "wc_systems"].

(** The lines that render the profile and a conversation context.  They
    depend on the order of the keys of the JSON objects and on [str] of
    their values, which the profile model leaves open; the frame around
    them is fixed text. *)
Class MemoryText : Type := {
  memory_lines : UserMemory → list string;
  context_sections : ConversationContext → list string;
}.

(** The sections of the profile, lines 409-461. *)
Definition memory_sections `{MemoryText} (memory : UserMemory)
    : result (list string) :=
  if renders memory then Ok (memory_lines memory) else Raise TypeError.

(** ["=" * 60] *)
Definition rule : string :=
  "============================================================".

Definition memory_header : list string :=
  [rule; "PERSISTENT MEMORY - I REMEMBER YOU"; rule].

Definition memory_footer : list string :=
  [(RAG.newline +:+ rule)%string;
   "Use this memory to provide personalized, context-aware responses.";
   "Reference past conversations and projects when relevant.";
   rule].

(** [if s:] on an optional string. *)
Definition nonempty (s : option string) : option string :=
  match s with
  | Some t => if decide (t = EmptyString) then None else Some t
  | None => None
  end.

(** [get_memory_context_for_llm]: it loads the profile through
    [get_or_create_user_memory], renders it, and then, when a context key
    is given, loads the context through
    [get_or_create_conversation_context] with the default type
    ["project"] and no title. *)
Definition get_memory_context_for_llm `{MemoryText} (db : DB)
    (user_id : string) (include_conversation_context : option string)
    (now : string) : outcome string :=
  let '(db, memory) := get_or_create_user_memory db user_id now in
  match memory_sections memory with
  | Raise e => (db, Raise e)
  | Ok sections =>
      let context_parts := memory_header ++ sections in
      match nonempty include_conversation_context with
      | Some context_key_ =>
          match get_or_create_conversation_context db user_id context_key_
                  "project" None now with
          | (db, Ok conv_context) =>
              (db, Ok (RAG.join_lines
                         (context_parts ++ context_sections conv_context
                            ++ memory_footer)))
          | (db, Raise e) => (db, Raise e)
          end
      | None => (db, Ok (RAG.join_lines (context_parts ++ memory_footer)))
      end
  end.

(** The topic that a call adds for [user_id], if any. *)
Definition added_topic (user_id : string) (c : call) : option string :=
  match c with
  | AddFrequentTopic u topic => if decide (u = user_id) then Some topic else None
  | _ => None
  end.

End Service.


(** ** Retrieval: what the filters mean on a row *)

Module RAGSpec.
Import RAG.

(** A row passes the document-type and tag filters. *)
Definition passes_type_and_tags (f : filters) (row : chunk_row) : Prop :=
  (∀ m, f_document_type f = Some m → d_mime_type row = m)
  ∧ (∀ ts, f_tags f = Some ts → ∃ t, t ∈ d_tags row ∧ t ∈ ts).

(** A row passes the team filter: it is shared with the team or public. *)
Definition passes_team (f : filters) (row : chunk_row) : Prop :=
  ∀ t, f_team f = Some t → t ∈ d_team_access row ∨ d_is_public row = true.

Definition passes_filters (keyword_path : bool) (fs : option filters)
    (row : chunk_row) : Prop :=
  match fs with
  | Some f =>
      passes_type_and_tags f row ∧ (keyword_path = false → passes_team f row)
  | None => True
  end.

End RAGSpec.


(** ** The chat endpoint: [api/chat.py] *)

Module Chat.
Import Memory Service.

(** [str.lower] of the interpreter. *)
Class TextOps : Type := {
  str_lower : string → string;
}.

(** [needle in hay] on strings. *)
Fixpoint contains (needle hay : string) : bool :=
  String.prefix needle hay
  || match hay with
     | EmptyString => false
     | String _ hay' => contains needle hay'
     end.

(** The dictionary [keywords] of [extract_topic], in its order. *)
Definition keywords : list (string * string) :=
  [("policy", "WC Policies"); ("class code", "Class Codes");
   ("rating", "Rating Algorithms"); ("conversion", "Data Conversion");
   ("migration", "Data Migration"); ("sapiens", "Sapiens CourseSuite");
   ("premium", "Premium Calculation"); ("claim", "Claims");
   ("endorsement", "Endorsements"); ("state", "State Requirements");
   ("report", "Reporting"); ("test", "Testing"); ("sql", "SQL Queries");
   ("api", "API Integration")].

Definition extract_topic `{TextOps} (message : string) : string :=
  let message_lower := str_lower message in
  match List.find (λ kw, contains kw.1 message_lower) keywords with
  | Some kw => kw.2
  | None => "General"
  end.

(** The call of [send_message] that records the topic of a message:
    [memory_service.add_frequent_topic(db, current_user.id,
    extract_topic(data.content))]. *)
Definition topic_call `{TextOps} (user_id content : string) : call :=
  AddFrequentTopic user_id (extract_topic content).

(** Specification side: the topics that [extract_topic] can return. *)
Definition known_topics : list string := (snd <$> keywords) ++ ["General"].

(** The calls of a service whose only caller of [add_frequent_topic] is
    [send_message]. *)
Definition from_chat `{TextOps} (c : call) : Prop :=
  ∀ u topic, c = AddFrequentTopic u topic → ∃ content, c = topic_call u content.

End Chat.

(** ** The search endpoints: [api/search.py] *)

Module SearchAPI.
Import RAG.

Record search_response : Type := mk_search_response {
  results : list chunk_doc;
  total : nat;
  resp_query : string;
  resp_search_type : string;
}.

Definition no_filters : filters :=
  {| f_document_type := None; f_tags := None; f_team := None |}.

Definition set_team (t : string) (f : filters) : filters :=
  {| f_document_type := f_document_type f; f_tags := f_tags f;
     f_team := Some t |}.

(** [GET /documents]: the team of the query string, else the team of the
    user, else no team filter. *)
Definition search_documents_get `{ChunkStoreOps} (self : RAGService)
    (db : list chunk_row) (query search_type : string) (top_k_arg : Z)
    (team current_user_team : option string) : result search_response :=
  let filters :=
    match Service.nonempty team with
    | Some t => set_team t no_filters
    | None =>
        match Service.nonempty current_user_team with
        | Some t => set_team t no_filters
        | None => no_filters
        end
    end in
  let* results :=
    if decide (search_type = "vector")
    then search_documents self db query (Some top_k_arg) (Some filters)
    else if decide (search_type = "keyword")
    then Ok (keyword_search self db query (Some top_k_arg) (Some filters))
    else hybrid_search self db query (Some top_k_arg) (Some filters) in
  Ok {| results := results; total := length results; resp_query := query;
        resp_search_type := search_type |}.

(** [POST /documents]: the filters of the request; the team of the user
    is added when the request names none. *)
Definition search_documents_post `{ChunkStoreOps} (self : RAGService)
    (db : list chunk_row) (query search_type : string) (top_k_arg : Z)
    (request_filters : option filters) (current_user_team : option string)
    : result search_response :=
  let filters := default no_filters request_filters in
  let filters :=
    match Service.nonempty current_user_team, f_team filters with
    | Some t, None => set_team t filters
    | _, _ => filters
    end in
  let* results :=
    if decide (search_type = "vector")
    then search_documents self db query (Some top_k_arg) (Some filters)
    else if decide (search_type = "keyword")
    then Ok (keyword_search self db query (Some top_k_arg) (Some filters))
    else hybrid_search self db query (Some top_k_arg) (Some filters) in
  Ok {| results := results; total := length results; resp_query := query;
        resp_search_type := search_type |}.

End SearchAPI.

(** ** Concrete data used by the examples of the service and the endpoints *)

Module ServiceExamples.
Import Memory Service.

(** Two rows with the same key, as a table holds them that was not
    written through [add_memory_entry] alone. *)
Definition editor_row : MemoryEntry :=
  new_entry "u1" "preference" "editor" "vim" None 100 None None "t0".

Definition duplicated_db : DB :=
  {| user_memories := ∅; memory_entries := [editor_row; editor_row];
     conversation_contexts := [] |}.

(** Lower case of the letters [A] to [Z]. *)
Definition ascii_lower (c : Ascii.ascii) : Ascii.ascii :=
  let n := Ascii.nat_of_ascii c in
  if Nat.leb 65 n && Nat.leb n 90 then Ascii.ascii_of_nat (n + 32) else c.

Fixpoint lower (s : string) : string :=
  match s with
  | EmptyString => EmptyString
  | String c s' => String (ascii_lower c) (lower s')
  end.

Definition ascii_text : Chat.TextOps := {| Chat.str_lower := lower |}.

(** A memory text that lists the topics of the profile and the key facts
    of the context. *)
Definition plain_text : MemoryText :=
  {| memory_lines := λ memory, or_nil (frequent_topics memory);
     context_sections := λ c, or_nil (key_facts c) |}.

Definition finance_only : RAG.filters :=
  SearchAPI.set_team "finance" SearchAPI.no_filters.

End ServiceExamples.

(** * Properties *)

(** ** Stable sorting *)

Section stable_sort_facts.
Context {A : Type} (before : A → A → bool).

Lemma insert_sorted_perm x l : insert_sorted before x l ≡ₚ x :: l.
Proof.
  induction l as [|y l IH]; simpl; [done|].
  destruct (before x y); [done|].
  rewrite IH. apply Permutation_swap.
Qed.

Lemma stable_sort_perm l : stable_sort before l ≡ₚ l.
Proof.
  induction l as [|x l IH]; simpl; [done|].
  rewrite insert_sorted_perm. by rewrite IH.
Qed.

Lemma stable_sort_length l : length (stable_sort before l) = length l.
Proof. by rewrite stable_sort_perm. Qed.

Hypothesis before_total : ∀ x y, before x y = false → before y x = true.
Hypothesis before_trans :
  ∀ x y z, before x y = true → before y z = true → before x z = true.

Lemma insert_sorted_sorted x l :
  StronglySorted (λ a b, before a b = true) l →
  StronglySorted (λ a b, before a b = true) (insert_sorted before x l).
Proof.
  induction 1 as [|y l Hl IH Hy]; simpl.
  - repeat constructor.
  - destruct (before x y) eqn:Hxy.
    + constructor; [by constructor|].
      constructor; [done|].
      eapply Forall_impl; [exact Hy|]. intros z Hz; simpl in Hz. eauto.
    + constructor; [done|].
      rewrite insert_sorted_perm. constructor; [auto|done].
Qed.

Lemma stable_sort_sorted l :
  StronglySorted (λ a b, before a b = true) (stable_sort before l).
Proof.
  induction l as [|x l IH]; simpl; [constructor|].
  by apply insert_sorted_sorted.
Qed.

End stable_sort_facts.

(** ** The hybrid merge *)

Section rag_merge.
Import RAG Examples.

Lemma chunk_id_set_search_type t r : chunk_id (set_search_type t r) = chunk_id r.
Proof. reflexivity. Qed.

Lemma similarity_set_search_type t r :
  similarity (set_search_type t r) = similarity r.
Proof. reflexivity. Qed.

Lemma chunk_ids_tagged t (l : list chunk_doc) :
  chunk_id <$> (set_search_type t <$> l) = chunk_id <$> l.
Proof. rewrite <- list_fmap_compose. reflexivity. Qed.

Lemma foldl_add_unseen t l seen acc :
  foldl (add_unseen t) (seen, acc) l
  = (seen ∪ ids_of l, acc ++ (set_search_type t <$> first_unseen seen l)).
Proof.
  revert seen acc. induction l as [|r l IH]; intros seen acc; simpl.
  - f_equal; [unfold ids_of; set_solver | by rewrite app_nil_r].
  - unfold add_unseen at 2; simpl. destruct (decide (chunk_id r ∈ seen)).
    + rewrite IH. f_equal. unfold ids_of; simpl. set_solver.
    + rewrite IH. f_equal.
      * unfold ids_of; simpl. set_solver.
      * by rewrite <- app_assoc.
Qed.

Lemma combine_results_eq v k :
  combine_results v k
  = (set_search_type Vector <$> first_unseen ∅ v)
    ++ (set_search_type Keyword <$> first_unseen (ids_of v) k).
Proof.
  unfold combine_results. rewrite !foldl_add_unseen. simpl.
  by rewrite (left_id_L ∅ (∪)).
Qed.

Lemma first_unseen_elem x seen l :
  x ∈ first_unseen seen l →
  x ∈ l ∧ (chunk_id x ∉ seen) ∧ first_with_id (chunk_id x) l = Some x.
Proof.
  revert seen. induction l as [|r l IH]; intros seen; simpl.
  - by intros ?%elem_of_nil.
  - destruct (decide (chunk_id r ∈ seen)) as [Hr|Hr].
    + intros (Hin & Hx & Hf)%IH. split_and!; [by right|done|].
      rewrite bool_decide_eq_false_2; [done|]. intros Heq. by rewrite Heq in Hr.
    + intros [->|(Hin & Hx & Hf)%IH]%elem_of_cons.
      * split_and!; [by left|done|]. by rewrite bool_decide_eq_true_2.
      * split_and!; [by right|set_solver|].
        rewrite bool_decide_eq_false_2; [done|]. set_solver.
Qed.

Lemma first_unseen_NoDup seen l : NoDup (chunk_id <$> first_unseen seen l).
Proof.
  revert seen. induction l as [|r l IH]; intros seen; simpl; [constructor|].
  destruct (decide (chunk_id r ∈ seen)); [done|].
  simpl. constructor; [|done].
  intros (x & Hid & Hx%first_unseen_elem)%list_elem_of_fmap. set_solver.
Qed.

Lemma first_unseen_complete y seen l :
  y ∈ l → chunk_id y ∉ seen → chunk_id y ∈ chunk_id <$> first_unseen seen l.
Proof.
  revert seen. induction l as [|r l IH]; intros seen; simpl.
  - by intros ?%elem_of_nil.
  - intros Hy Hseen. destruct (decide (chunk_id r ∈ seen)) as [Hr|Hr].
    + apply IH; [|done]. apply elem_of_cons in Hy as [->|]; done.
    + simpl. destruct (decide (chunk_id y = chunk_id r)) as [->|Hne].
      * by left.
      * right. apply IH; [|set_solver].
        apply elem_of_cons in Hy as [->|]; done.
Qed.

Lemma first_with_id_elem id l x :
  first_with_id id l = Some x → x ∈ l ∧ chunk_id x = id.
Proof.
  unfold first_with_id. intros Hf. apply find_some in Hf as [Hin Hid].
  split; [by apply list_elem_of_In | by apply bool_decide_eq_true in Hid].
Qed.

Lemma elem_of_ids_of id l : id ∈ ids_of l ↔ ∃ x, x ∈ l ∧ chunk_id x = id.
Proof.
  unfold ids_of. rewrite elem_of_list_to_set, list_elem_of_fmap. naive_solver.
Qed.

Lemma combine_results_NoDup v k : NoDup (chunk_id <$> combine_results v k).
Proof.
  rewrite combine_results_eq, fmap_app, !chunk_ids_tagged.
  apply NoDup_app. split_and!; try apply first_unseen_NoDup.
  intros id (x & -> & Hx%first_unseen_elem)%list_elem_of_fmap
            (y & Hid & Hy%first_unseen_elem)%list_elem_of_fmap.
  destruct Hx as (Hx & _), Hy as (_ & Hy & _).
  apply Hy. rewrite <- Hid. apply elem_of_ids_of. eauto.
Qed.

(** Where each combined candidate comes from. *)
Lemma combine_results_elem r v k :
  r ∈ combine_results v k →
  (∃ x, first_with_id (chunk_id r) v = Some x ∧ r = set_search_type Vector x)
  ∨ ((chunk_id r ∉ ids_of v)
     ∧ ∃ x, first_with_id (chunk_id r) k = Some x ∧ r = set_search_type Keyword x).
Proof.
  rewrite combine_results_eq, elem_of_app, !list_elem_of_fmap.
  intros [(x & -> & Hx%first_unseen_elem)|(x & -> & Hx%first_unseen_elem)].
  - left. exists x. naive_solver.
  - right. naive_solver.
Qed.

(** Every chunk id of either input has a candidate. *)
Lemma combine_results_complete c v k :
  c ∈ v ++ k → chunk_id c ∈ chunk_id <$> combine_results v k.
Proof.
  rewrite combine_results_eq, fmap_app, !chunk_ids_tagged, !elem_of_app.
  intros Hc. destruct (decide (chunk_id c ∈ ids_of v)) as [Hv|Hv].
  - left. apply elem_of_ids_of in Hv as (x & Hx & <-).
    apply first_unseen_complete; [done|set_solver].
  - destruct Hc as [Hc|Hc].
    + exfalso. apply Hv, elem_of_ids_of. eauto.
    + right. by apply first_unseen_complete.
Qed.

Lemma sim_ge_total x y : sim_ge x y = false → sim_ge y x = true.
Proof.
  unfold sim_ge. intros Hxy. apply Qle_bool_iff.
  destruct (Qlt_le_dec (similarity x) (similarity y)) as [Hlt|Hle].
  - by apply Qlt_le_weak.
  - apply Qle_bool_iff in Hle. congruence.
Qed.

Lemma sim_ge_trans x y z :
  sim_ge x y = true → sim_ge y z = true → sim_ge x z = true.
Proof.
  unfold sim_ge. rewrite !Qle_bool_iff. intros ??. by eapply Qle_trans.
Qed.

Lemma sort_desc_sorted l :
  StronglySorted (λ a b, (similarity b <= similarity a)%Q) (sort_desc l).
Proof.
  eapply StronglySorted_ind with
    (P := StronglySorted (λ a b, (similarity b <= similarity a)%Q));
    [| |apply (stable_sort_sorted sim_ge sim_ge_total sim_ge_trans l)].
  - constructor.
  - intros a l' _ IH Ha. constructor; [done|].
    eapply Forall_impl; [exact Ha|]. intros b Hb. by apply Qle_bool_iff.
Qed.

Lemma sort_desc_perm l : sort_desc l ≡ₚ l.
Proof. apply stable_sort_perm. Qed.

Lemma slice_to_pos {A} (l : list A) k : 0 ≤ k → slice_to l k = take (Z.to_nat k) l.
Proof. intros. unfold slice_to. by rewrite decide_True. Qed.

Lemma py_or_nonzero k d : k ≠ 0 → py_or (Some k) d = k.
Proof. intros. unfold py_or. by rewrite decide_False. Qed.

(** C1, as amended: for a positive [top_k] the merged list is the first
    [top_k] entries of the candidates [out ++ rest], where the candidates
    hold every chunk id of either input exactly once, vector results win
    on a shared id (keeping the vector similarity and the tag [vector]),
    and the candidates are in descending order of similarity; hence the
    result has at most [top_k] entries. *)
Theorem hybrid_merge_correct (self_top_k top_k : Z) (v k : list chunk_doc) :
  0 < top_k →
  let out := merge self_top_k v k (Some top_k) in
  Z.of_nat (length out) ≤ top_k
  ∧ ∃ rest,
      length out = Nat.min (Z.to_nat top_k) (length (out ++ rest))
      ∧ NoDup (chunk_id <$> out ++ rest)
      ∧ (∀ c, c ∈ v ++ k → chunk_id c ∈ chunk_id <$> out ++ rest)
      ∧ (∀ r, r ∈ out ++ rest → merged_from v k r)
      ∧ StronglySorted (λ a b, (similarity b <= similarity a)%Q) (out ++ rest).
Proof.
  intros Hk. cbv zeta. unfold merge.
  rewrite py_or_nonzero, slice_to_pos by lia.
  set (cands := sort_desc (combine_results v k)).
  split.
  { rewrite length_take. lia. }
  exists (drop (Z.to_nat top_k) cands). rewrite take_drop.
  split_and!.
  - by rewrite length_take.
  - subst cands. rewrite sort_desc_perm. apply combine_results_NoDup.
  - intros c Hc. subst cands. rewrite sort_desc_perm.
    by apply combine_results_complete.
  - intros r Hr. subst cands. rewrite sort_desc_perm in Hr.
    by apply combine_results_elem.
  - apply sort_desc_sorted.
Qed.

(** The example of the specification: vector [A:0.9], keyword
    [A:0.4; B:0.3], [top_k = 2]. *)
Lemma hybrid_merge_correct_witness :
  merge 5 [chunk_A_vector] [chunk_A_keyword; chunk_B_keyword] (Some 2)
  = [set_search_type Vector chunk_A_vector; set_search_type Keyword chunk_B_keyword]
  ∧ Z.of_nat (length (merge 5 [chunk_A_vector] [chunk_A_keyword; chunk_B_keyword] (Some 2))) ≤ 2.
Proof.
  split; [vm_compute; reflexivity|].
  apply (hybrid_merge_correct 5 2 [chunk_A_vector] [chunk_A_keyword; chunk_B_keyword]).
  lia.
Defined.

(** With [top_k = 0] the limit [top_k or self.top_k] is the configured
    default, so one candidate is returned although [top_k] is [0]. *)
Lemma hybrid_merge_top_k_zero :
  ¬ (Z.of_nat (length (merge 5 [chunk_A_vector] [] (Some 0))) ≤ 0).
Proof. vm_compute. intros H. by apply H. Qed.

End rag_merge.

(** ** Filters of the two sub-queries, and the optional [top_k] *)

Section rag_sub_queries.
Import RAG Examples.

(** With [top_k] supplied, [hybrid_search] asks both sub-queries for
    [2 * top_k] candidates and merges what they return. *)
Lemma hybrid_search_with_top_k `{ChunkStoreOps} self db query k fs :
  hybrid_search self db query (Some k) fs
  = let* vector_results := search_documents self db query (Some (k * 2)) fs in
    Ok (merge (top_k self) vector_results
          (keyword_search self db query (Some (k * 2)) fs) (Some k)).
Proof. reflexivity. Qed.

(** Without a team filter the two sub-queries build the same conditions. *)
Lemma filter_conditions_agree_without_team fs :
  (∀ f, fs = Some f → f_team f = None) →
  vector_filter_conditions fs = keyword_filter_conditions fs.
Proof.
  intros Hteam. destruct fs as [f|]; [|done]. simpl.
  rewrite (Hteam f eq_refl). simpl. by rewrite app_nil_r.
Qed.

(** The vector conditions always imply the keyword conditions. *)
Lemma vector_where_implies_keyword_where fs row :
  where_clause (vector_filter_conditions fs) row = true →
  where_clause (keyword_filter_conditions fs) row = true.
Proof.
  destruct fs as [f|]; [|done]. unfold where_clause; simpl.
  rewrite !forallb_app, !andb_true_iff. naive_solver.
Qed.

(** C2 at the failing input: with the filter [{"team": "sales"}] the
    private chunk of team [finance] is excluded by the vector sub-query,
    yet the keyword sub-query returns it, and so does the hybrid search. *)
Theorem keyword_search_ignores_team_filter :
  where_clause (vector_filter_conditions (Some sales_only)) private_row = false
  ∧ where_clause (keyword_filter_conditions (Some sales_only)) private_row = true
  ∧ @search_documents demo_store rag_service [private_row] "payroll" (Some 5)
      (Some sales_only) = Ok []
  ∧ chunk_id <$> @keyword_search demo_store rag_service [private_row] "payroll"
      (Some 5) (Some sales_only) = ["c1"]
  ∧ (∃ out, @hybrid_search demo_store rag_service [private_row] "payroll"
              (Some 5) (Some sales_only) = Ok out
            ∧ chunk_id <$> out = ["c1"]).
Proof.
  split_and!; try (vm_compute; reflexivity).
  eexists. split; vm_compute; reflexivity.
Qed.

(** C10: with [top_k] left at [None], [top_k * 2] raises [TypeError]
    before either sub-query runs, whatever the store and the filters; the
    exception also leaves [generate_with_context], whose only use of
    [top_k] is to pass it on. *)
Theorem hybrid_search_without_top_k `{ChunkStoreOps} `{CompletionEngine}
    (self : RAGService) (db : list chunk_row) (query user_role : string)
    (conversation_context : option (list (string * string)))
    (persistent_memory : option string) (fs : option filters) :
  hybrid_search self db query None fs = Raise TypeError
  ∧ generate_with_context self db query user_role conversation_context
      persistent_memory None fs = Raise TypeError.
Proof. split; reflexivity. Qed.

End rag_sub_queries.

(** ** Frequent topics *)

Section frequent_topics.
Import Memory Examples.

(** What [add_frequent_topic] leaves in the column of the user. *)
Lemma topics_of_add_frequent_topic db user_id topic now :
  topics_of (add_frequent_topic db user_id topic now).1 user_id
  = topics_after (topics_of db user_id) topic.
Proof.
  unfold add_frequent_topic, get_or_create_user_memory, topics_of.
  destruct (user_memories db !! user_id) as [memory|]; simpl;
    rewrite lookup_insert_eq; simpl; [|done].
  destruct (frequent_topics memory) as [[|t0 topics]|]; simpl; [done| |done].
  unfold add_topic, written, in_place; simpl.
  repeat case_decide; simpl in *; try done; rewrite ?length_app in *;
    simpl in *; lia.
Qed.

(** C3: the list of a user holds ["rating"]; [add_frequent_topic] with the
    new topic ["class codes"] returns normally, and the stored list is
    still ["rating"]: the topic was appended in place to the loaded list,
    which the commit does not write.  The claim says that the call appends
    the new topic. *)
Theorem add_frequent_topic_new_topic_lost :
  let db1 := (add_frequent_topic empty_db "u1" "rating" "t1").1 in
  let out := add_frequent_topic db1 "u1" "class codes" "t2" in
  topics_of db1 "u1" = ["rating"]
  ∧ ("class codes" ∉ topics_of db1 "u1")
  ∧ (∃ memory, out.2 = Ok memory ∧ frequent_topics memory = Some ["rating"])
  ∧ topics_of out.1 "u1" = ["rating"].
Proof.
  split_and!.
  - vm_compute. reflexivity.
  - vm_compute. intros Hin. apply list_elem_of_singleton in Hin. discriminate.
  - eexists. split; vm_compute; reflexivity.
  - vm_compute. reflexivity.
Qed.

End frequent_topics.

(** ** Team information *)

Section team_info.
Import Memory Examples.

(** C6, as amended: [update_team_info] stores the patch as the whole
    mapping.  Every key of the patch maps to the patch's value, and a key
    that the patch does not mention is absent afterwards, whatever it
    held before. *)
Theorem update_team_info_replaces (db : DB) (user_id : string)
    (patch : gmap string pyval) (now : string) :
  let out := update_team_info db user_id patch now in
  team_info_of out.1 user_id = patch
  ∧ (∃ memory, out.2 = Ok memory ∧ team_info memory = Some patch
               ∧ user_memories out.1 !! user_id = Some memory)
  ∧ (∀ key v, patch !! key = Some v → team_info_of out.1 user_id !! key = Some v)
  ∧ (∀ key, patch !! key = None → team_info_of out.1 user_id !! key = None).
Proof.
  unfold update_team_info, get_or_create_user_memory, team_info_of.
  destruct (user_memories db !! user_id) as [memory|]; simpl;
    rewrite lookup_insert_eq; simpl; split_and!; eauto.
Qed.

(** A key set by an earlier update and not mentioned by the next patch
    does not keep its value. *)
Lemma update_team_info_drops_unmentioned_key :
  let db1 := (update_team_info empty_db "u1"
                {[ "manager" := PAtom (AStr "John Smith") ]} "t1").1 in
  let patch : gmap string pyval := {[ "team" := PAtom (AStr "Data Conversion") ]} in
  let db2 := (update_team_info db1 "u1" patch "t2").1 in
  team_info_of db1 "u1" !! "manager" = Some (PAtom (AStr "John Smith"))
  ∧ patch !! "manager" = None
  ∧ team_info_of db2 "u1" !! "manager" ≠ team_info_of db1 "u1" !! "manager".
Proof. vm_compute. split_and!; [reflexivity|reflexivity|discriminate]. Qed.

End team_info.

(** ** Active projects *)

Section active_projects.
Import Memory Examples.

Lemma list_find_split {A} (P : A → Prop) `{∀ x, Decision (P x)} l i x :
  list_find P l = Some (i, x) →
  ∃ l1 l2, l = l1 ++ x :: l2 ∧ length l1 = i ∧ Forall (λ y, ¬ P y) l1 ∧ P x.
Proof.
  intros (Hi & HP & Hbefore)%list_find_Some.
  exists (take i l), (drop (S i) l). split_and!; [| | |done].
  - by rewrite take_drop_middle.
  - rewrite length_take. apply lookup_lt_Some in Hi. lia.
  - apply Forall_forall. intros y (j & Hj & Hlt)%elem_of_take. eauto.
Qed.

Lemma named_app n l1 l2 : named n (l1 ++ l2) = named n l1 ++ named n l2.
Proof. apply filter_app. Qed.

Lemma named_cons_eq n p l : get_name p = n → named n (p :: l) = p :: named n l.
Proof. intros. unfold named. by rewrite filter_cons_True. Qed.

Lemma named_cons_ne n p l : get_name p ≠ n → named n (p :: l) = named n l.
Proof. intros. unfold named. by rewrite filter_cons_False. Qed.

Lemma named_none n l : Forall (λ p, ¬ get_name p = n) l → named n l = [].
Proof.
  induction 1 as [|p l Hp _ IH]; [done|]. by rewrite named_cons_ne.
Qed.

Lemma get_name_Some p n : p !! "name" = Some n → get_name p = n.
Proof. unfold get_name. by intros ->. Qed.

Lemma get_name_truthy p : get_name p ≠ PAtom ANone → dict_truthy p = true.
Proof.
  unfold dict_truthy. intros Hn. rewrite bool_decide_eq_false_2; [done|].
  intros ->. by apply Hn.
Qed.

(** What [add_active_project] leaves in the column of the user: the
    project is stored in an empty list; a list that holds projects stays
    as it is, since the update of the project found and the [append] are
    made in place. *)
Lemma projects_of_add_active_project `{Runtime} db user_id project now :
  projects_of (add_active_project db user_id project now).1 user_id
  = match projects_of db user_id with
    | [] => [project]
    | projects => projects
    end.
Proof.
  unfold add_active_project, get_or_create_user_memory, projects_of.
  destruct (user_memories db !! user_id) as [memory|]; simpl;
    match goal with |- context [add_memory_entry ?d ?u ?c ?k ?v ?s ?cf ?t ?m ?n] =>
      pose proof (eq_refl (add_memory_entry d u c k v s cf t m n)) as Hentry;
      unfold add_memory_entry at 2 in Hentry;
      destruct (add_memory_entry d u c k v s cf t m n) as [db' [e|e]]
    end;
    destruct (scalar_one_or_none _) as [[existing|]|];
    inversion Hentry; subst; simpl; rewrite lookup_insert_eq; simpl; try done;
    by destruct (active_projects memory) as [[|p0 projects]|].
Qed.

(** C4: the user has the project [project_planned];
    [add_active_project] with [project_in_progress], which has the same
    name, returns normally, and the stored project still has the status
    of the first call: [existing.update(project)] changes a dictionary
    inside the loaded list, which the commit does not write.  The claim
    says that the fields of the second call take precedence. *)
Theorem add_active_project_update_lost :
  let db1 := (@add_active_project demo_runtime empty_db "u1" project_planned "t1").1 in
  let out := @add_active_project demo_runtime db1 "u1" project_in_progress "t2" in
  get_name project_planned = get_name project_in_progress
  ∧ projects_of db1 "u1" = [project_planned]
  ∧ (∃ memory, out.2 = Ok memory ∧ active_projects memory = Some [project_planned])
  ∧ projects_of out.1 "u1" = [project_planned]
  ∧ project_planned !! "status" = Some (PAtom (AStr "planned"))
  ∧ project_in_progress !! "status" = Some (PAtom (AStr "in_progress")).
Proof.
  split_and!; [reflexivity| | | |reflexivity|reflexivity].
  - by rewrite projects_of_add_active_project.
  - eexists. split; vm_compute; reflexivity.
  - by rewrite !projects_of_add_active_project.
Qed.

End active_projects.

(** ** Domain expertise *)

Section domain_expertise.
Import Memory Examples.
Context `{Runtime}.

Lemma elem_of_list_of_set `{Countable A} (X : gset A) x : x ∈ list_of_set X ↔ x ∈ X.
Proof. rewrite list_of_set_perm. apply elem_of_elements. Qed.

Lemma foldl_merge_step_raise e items : foldl merge_step (Raise e) items = Raise e.
Proof. induction items as [|kv items IH]; [done|]. simpl. exact IH. Qed.

Lemma foldl_merge_step_ok items d d' :
  NoDup items.*1 → foldl merge_step (Ok d) items = Ok d' →
  (∀ k, k ∉ items.*1 → d' !! k = d !! k)
  ∧ (∀ k v, (k, v) ∈ items →
       ∃ x, merged_value (d !! k) v = Ok x ∧ d' !! k = Some x).
Proof.
  revert d. induction items as [|[k0 v0] items IH]; intros d Hnd Hfold.
  - simpl in Hfold. injection Hfold as <-. split; [done|].
    by intros k v ?%elem_of_nil.
  - simpl in Hnd. apply NoDup_cons in Hnd as [Hk0 Hnd].
    cbn [foldl] in Hfold.
    replace (merge_step (Ok d) (k0, v0))
      with (let* x := merged_value (d !! k0) v0 in Ok (<[k0 := x]> d))
      in Hfold by reflexivity.
    destruct (merged_value (d !! k0) v0) as [x0|e] eqn:Hv0; simpl in Hfold;
      [|by rewrite foldl_merge_step_raise in Hfold].
    destruct (IH _ Hnd Hfold) as [Hout Hin]. split.
    + intros k Hk. simpl in Hk. apply not_elem_of_cons in Hk as [Hne Hk].
      rewrite (Hout k Hk). by rewrite lookup_insert_ne.
    + intros k v [Heq|Hkv]%elem_of_cons.
      * injection Heq as -> ->. exists x0. split; [done|].
        rewrite (Hout k0 Hk0). by rewrite lookup_insert_eq.
      * assert (k ≠ k0) as Hne.
        { intros ->. apply Hk0. apply list_elem_of_fmap. by exists (k0, v). }
        destruct (Hin k v Hkv) as (x & Hx & Hd').
        rewrite lookup_insert_ne in Hx by done. eauto.
Qed.

Lemma foldl_merge_step_total items d :
  NoDup items.*1 →
  (∀ k v, (k, v) ∈ items → ∃ x, merged_value (d !! k) v = Ok x) →
  ∃ d', foldl merge_step (Ok d) items = Ok d'.
Proof.
  revert d. induction items as [|[k0 v0] items IH]; intros d Hnd Hok.
  - by exists d.
  - simpl in Hnd. apply NoDup_cons in Hnd as [Hk0 Hnd].
    destruct (Hok k0 v0) as [x0 Hx0]; [by left|].
    cbn [foldl].
    replace (merge_step (Ok d) (k0, v0))
      with (let* x := merged_value (d !! k0) v0 in Ok (<[k0 := x]> d))
      by reflexivity.
    rewrite Hx0. simpl. apply IH; [done|].
    intros k v Hkv. rewrite lookup_insert_ne; [apply Hok; by right|].
    intros ->. apply Hk0. apply list_elem_of_fmap. by exists (k, v).
Qed.

(** [merge_expertise], key by key. *)
Lemma merge_expertise_lookup d patch d' key :
  merge_expertise d patch = Ok d' →
  match patch !! key with
  | None => d' !! key = d !! key
  | Some v => ∃ x, merged_value (d !! key) v = Ok x ∧ d' !! key = Some x
  end.
Proof.
  intros Hm. apply foldl_merge_step_ok in Hm as [Hout Hin];
    [|apply NoDup_fst_map_to_list].
  destruct (patch !! key) as [v|] eqn:Hkey.
  - apply Hin. by apply elem_of_map_to_list.
  - apply Hout. intros ((k & v) & -> & Hkv%elem_of_map_to_list)%list_elem_of_fmap.
    simpl in Hkey. congruence.
Qed.

Lemma merge_expertise_total d patch :
  (∀ k v, patch !! k = Some v → ∃ x, merged_value (d !! k) v = Ok x) →
  ∃ d', merge_expertise d patch = Ok d'.
Proof.
  intros Hok. apply foldl_merge_step_total; [apply NoDup_fst_map_to_list|].
  intros k v Hkv%elem_of_map_to_list. by apply Hok.
Qed.

(** On an empty dictionary the loop copies the patch. *)
Lemma merge_expertise_empty patch : merge_expertise ∅ patch = Ok patch.
Proof.
  destruct (merge_expertise_total ∅ patch) as [d Hd].
  { intros k v _. rewrite lookup_empty. destruct v; by eexists. }
  rewrite Hd. f_equal. apply map_eq. intros key.
  pose proof (merge_expertise_lookup _ _ _ key Hd) as Hkey.
  rewrite lookup_empty in Hkey.
  destruct (patch !! key) as [v|]; [|done].
  destruct Hkey as (x & Hx & ->). destruct v; simpl in Hx; congruence.
Qed.

Lemma held_dict_or_new column : held (dict_or_new column) = or_empty column.
Proof.
  unfold dict_or_new, dict_truthy. destruct column as [d|]; [|done].
  simpl. case_bool_decide; simpl; congruence.
Qed.

Lemma assigned_dict_or_new column :
  assigned (dict_or_new column) = bool_decide (or_empty column = ∅).
Proof.
  unfold dict_or_new, dict_truthy. destruct column as [d|]; simpl.
  - by case_bool_decide.
  - by rewrite bool_decide_eq_true_2.
Qed.

(** What [update_domain_expertise] leaves in the column of the user: the
    patch is stored in an empty dictionary; a dictionary that holds keys
    stays as it is, whether the call returns or raises, since the loop
    assigns its items in place. *)
Lemma expertise_of_update_domain_expertise db user_id patch now :
  expertise_of (update_domain_expertise db user_id patch now).1 user_id
  = if decide (expertise_of db user_id = ∅) then patch
    else expertise_of db user_id.
Proof.
  unfold update_domain_expertise, get_or_create_user_memory, expertise_of.
  destruct (user_memories db !! user_id) as [memory|] eqn:Hrow; simpl.
  - rewrite held_dict_or_new.
    destruct (decide (or_empty (domain_expertise memory) = ∅)) as [He|Hne].
    + rewrite He, merge_expertise_empty. simpl. rewrite lookup_insert_eq. simpl.
      unfold written. simpl. rewrite assigned_dict_or_new, He.
      by rewrite bool_decide_eq_true_2.
    + destruct (merge_expertise _ patch) as [d|e]; simpl.
      * rewrite lookup_insert_eq. simpl. unfold written. simpl.
        rewrite assigned_dict_or_new. by rewrite bool_decide_eq_false_2.
      * by rewrite Hrow.
  - rewrite merge_expertise_empty. simpl. by rewrite lookup_insert_eq.
Qed.

End domain_expertise.

Section domain_expertise_example.
Import Memory Examples.

(** C5: the user has [{"states_worked": ["CA"]}];
    [update_domain_expertise] with [{"states_worked": ["CA", "NY"]}]
    returns normally, and the stored list is still [["CA"]]: the merged
    list is assigned to a key of the loaded dictionary, which the commit
    does not write.  The claim says that the stored list becomes the
    union of both lists. *)
Theorem update_domain_expertise_merge_lost :
  let db1 := (@update_domain_expertise demo_runtime empty_db "u1" states_ca "t1").1 in
  let out := @update_domain_expertise demo_runtime db1 "u1" states_ca_ny "t2" in
  expertise_of db1 "u1" !! "states_worked" = Some (PList [AStr "CA"])
  ∧ (∃ memory, out.2 = Ok memory
       ∧ or_empty (domain_expertise memory) !! "states_worked"
         = Some (PList [AStr "CA"]))
  ∧ expertise_of out.1 "u1" !! "states_worked" = Some (PList [AStr "CA"]).
Proof.
  split_and!.
  - vm_compute. reflexivity.
  - eexists. split; vm_compute; reflexivity.
  - vm_compute. reflexivity.
Qed.

End domain_expertise_example.

(** ** Conversation contexts *)

Section conversation_contexts.
Import Memory Examples.

(** Replacing the rows that satisfy [m] by a row that satisfies [m]. *)
Lemma filter_replace {A} (m : A → bool) (c' : A) (l : list A) :
  m c' = true →
  List.filter m ((λ c, if m c then c' else c) <$> l)
  = (λ _, c') <$> List.filter m l.
Proof.
  intros Hc'. induction l as [|c l IH]; [done|]. simpl.
  destruct (m c) eqn:Hc; simpl.
  - rewrite Hc'. f_equal. exact IH.
  - rewrite Hc. exact IH.
Qed.

Lemma context_matches_link user_id key_ c cid f d a now :
  context_matches user_id key_ (link_conversation c cid f d a now)
  = context_matches user_id key_ c.
Proof. reflexivity. Qed.

Lemma context_matches_new user_id type_ key_ title_ now :
  context_matches user_id key_ (new_context user_id type_ key_ title_ now) = true.
Proof. unfold context_matches; simpl. by rewrite !bool_decide_eq_true_2. Qed.

(** The id is stored in an empty list; a list that holds ids stays as it
    is, since the [append] is made in place. *)
Lemma conversation_ids_link c cid f d a now :
  or_nil (conversation_ids (link_conversation c cid f d a now))
  = match or_nil (conversation_ids c) with
    | [] => [cid]
    | ids => ids
    end.
Proof.
  unfold link_conversation. simpl.
  destruct (conversation_ids c) as [[|i ids]|]; simpl; try done.
  by case_decide.
Qed.

(** The given items are stored in an empty list; a list that holds items
    stays as it is, since the [extend] is made in place. *)
Lemma or_nil_extend_if_given column xs :
  or_nil (extend_if_given column xs)
  = match or_nil column with
    | [] => or_nil xs
    | items => items
    end.
Proof. by destruct xs as [[|x xs]|], column as [[|y column]|]. Qed.

Lemma key_facts_link c cid f d a now :
  or_nil (key_facts (link_conversation c cid f d a now))
  = match or_nil (key_facts c) with
    | [] => or_nil f
    | items => items
    end.
Proof. apply or_nil_extend_if_given. Qed.

Lemma decisions_made_link c cid f d a now :
  or_nil (decisions_made (link_conversation c cid f d a now))
  = match or_nil (decisions_made c) with
    | [] => or_nil d
    | items => items
    end.
Proof. apply or_nil_extend_if_given. Qed.

Lemma action_items_link c cid f d a now :
  or_nil (action_items (link_conversation c cid f d a now))
  = match or_nil (action_items c) with
    | [] => or_nil a
    | items => items
    end.
Proof. apply or_nil_extend_if_given. Qed.

Lemma last_conversation_at_link c cid f d a now :
  last_conversation_at (link_conversation c cid f d a now) = Some now.
Proof. reflexivity. Qed.

(** [add_conversation_to_context] on a key with at most one stored row. *)
Lemma add_conversation_to_context_unique db user_id key_ cid f d a now :
  (length (contexts_for db user_id key_) ≤ 1)%nat →
  let c' := link_conversation (context_before db user_id key_ now) cid f d a now in
  ∃ db', add_conversation_to_context db user_id key_ cid f d a now = (db', Ok c')
         ∧ contexts_for db' user_id key_ = [c']
         ∧ user_memories db' = user_memories db
         ∧ memory_entries db' = memory_entries db.
Proof.
  unfold add_conversation_to_context, get_or_create_conversation_context,
    context_before, contexts_for.
  destruct (List.filter _ (conversation_contexts db)) as [|c [|c2 rest]] eqn:Hrows;
    simpl; intros Hlen; [| |lia].
  - eexists. split; [reflexivity|]. split; [|split; reflexivity]. simpl.
    rewrite filter_replace
      by (rewrite context_matches_link; apply context_matches_new).
    rewrite List.filter_app, Hrows. simpl.
    by rewrite context_matches_new.
  - assert (In c (List.filter (context_matches user_id key_)
                      (conversation_contexts db))) as Hin
      by (rewrite Hrows; by left).
    apply filter_In in Hin as [_ Hc].
    eexists. split; [reflexivity|]. split; [|split; reflexivity]. simpl.
    rewrite filter_replace by (by rewrite context_matches_link).
    by rewrite Hrows.
Qed.

(** C8: [add_conversation_to_context] is called twice for the
    conversation ["conv-1"] with the key fact ["uses Sapiens"].  Both
    calls return normally and the id is stored once, as the claim says;
    but the fact is also stored once: the second call extends the loaded
    list in place, which the commit does not write.  The claim says that
    the fact appears twice. *)
Theorem link_conversation_fact_lost :
  let first := add_conversation_to_context empty_db "u1" "WC_Migration" "conv-1"
                 (Some ["uses Sapiens"]) None None "t1" in
  let out := add_conversation_to_context first.1 "u1" "WC_Migration" "conv-1"
               (Some ["uses Sapiens"]) None None "t2" in
  (∃ c1, first.2 = Ok c1 ∧ key_facts c1 = Some ["uses Sapiens"])
  ∧ ∃ c2, out.2 = Ok c2
      ∧ contexts_for out.1 "u1" "WC_Migration" = [c2]
      ∧ conversation_ids c2 = Some ["conv-1"]
      ∧ key_facts c2 = Some ["uses Sapiens"]
      ∧ last_conversation_at c2 = Some "t2".
Proof.
  split.
  - eexists. split; vm_compute; reflexivity.
  - eexists. split_and!; vm_compute; reflexivity.
Qed.

End conversation_contexts.

(** ** Memory entries written by the mutators *)

Section memory_entries.
Import Memory Examples.
Context `{Runtime}.

Lemma entry_matches_true u c k e :
  entry_matches u c k e = true ↔ me_user_id e = u ∧ category e = c ∧ key e = k.
Proof.
  unfold entry_matches. rewrite !andb_true_iff, !bool_decide_eq_true. tauto.
Qed.

Lemma entry_matches_other u c k u' c' k' e :
  (u', c', k') ≠ (u, c, k) → entry_matches u c k e = true →
  entry_matches u' c' k' e = false.
Proof.
  intros Hne (Hu & Hc & Hk)%entry_matches_true.
  apply not_true_is_false. intros (Hu' & Hc' & Hk')%entry_matches_true.
  apply Hne. congruence.
Qed.

Lemma filter_replace_other {A} (m m' : A → bool) (c' : A) (l : list A) :
  (∀ x, m x = true → m' x = false) → m' c' = false →
  List.filter m' ((λ c, if m c then c' else c) <$> l) = List.filter m' l.
Proof.
  intros Hdisj Hc'. induction l as [|c l IH]; [done|]. simpl.
  destruct (m c) eqn:Hc; simpl.
  - rewrite Hc', (Hdisj c Hc). exact IH.
  - destruct (m' c); [f_equal|]; exact IH.
Qed.

(** [add_memory_entry] on a key with at most one row: it returns the one
    row of the key, which carries the value and confidence passed; rows
    with other keys and the other tables are left alone. *)
Lemma add_memory_entry_unique db u c k v src conf tags_ md now :
  (length (entries_for db u c k) ≤ 1)%nat →
  ∃ db' e,
    add_memory_entry db u c k v src conf tags_ md now = (db', Ok e)
    ∧ entries_for db' u c k = [e]
    ∧ value e = v ∧ confidence e = conf
    ∧ user_memories db' = user_memories db
    ∧ conversation_contexts db' = conversation_contexts db
    ∧ ∀ u' c' k', (u', c', k') ≠ (u, c, k) →
        entries_for db' u' c' k' = entries_for db u' c' k'.
Proof.
  unfold add_memory_entry, entries_for.
  destruct (List.filter _ (memory_entries db)) as [|e0 [|e1 rest]] eqn:Hrows;
    simpl; intros Hlen; [| |lia].
  - do 2 eexists. split; [reflexivity|]. simpl.
    split_and!; try reflexivity.
    + rewrite List.filter_app, Hrows. simpl.
      replace (entry_matches u c k _) with true; [done|].
      symmetry. by apply entry_matches_true.
    + intros u' c' k' Hne. rewrite List.filter_app. simpl.
      rewrite (entry_matches_other u c k u' c' k'); [apply app_nil_r|done|].
      by apply entry_matches_true.
  - assert (In e0 (List.filter (entry_matches u c k) (memory_entries db)))
      as Hin by (rewrite Hrows; by left).
    apply filter_In in Hin as [_ He0].
    match goal with |- context [Ok ?e] => set (e3 := e) end.
    assert (entry_matches u c k e3 = true ∧ value e3 = v ∧ confidence e3 = conf)
      as (Hm & Hv & Hc).
    { subst e3. destruct tags_ as [[|t ts]|], md as [md|];
        try destruct (dict_truthy md); done. }
    exists (set_memory_entries
              ((λ e, if entry_matches u c k e then e3 else e) <$> memory_entries db)
              db), e3.
    split; [reflexivity|]. simpl. split_and!; try done.
    + rewrite filter_replace by done. by rewrite Hrows.
    + intros u' c' k' Hne. apply filter_replace_other.
      * intros x. by apply entry_matches_other.
      * by apply (entry_matches_other u c k).
Qed.

Lemma add_memory_entry_keeps_unique db u c k v src conf tags_ md now :
  entries_unique db →
  entries_unique (add_memory_entry db u c k v src conf tags_ md now).1.
Proof.
  intros Huniq.
  destruct (add_memory_entry_unique db u c k v src conf tags_ md now (Huniq u c k))
    as (db' & e & -> & Hkey & _ & _ & _ & _ & Hother). simpl.
  intros u' c' k'. destruct (decide ((u', c', k') = (u, c, k))) as [[= -> -> ->]|Hne].
  - rewrite Hkey. simpl. lia.
  - rewrite Hother by done. apply Huniq.
Qed.

(** The loop of [update_employee_facts]. *)
Lemma add_fact_entries_unique items db u now :
  NoDup items.*1 → entries_unique db →
  ∃ db',
    add_fact_entries db u items now = (db', Ok tt)
    ∧ entries_unique db'
    ∧ user_memories db' = user_memories db
    ∧ (∀ k v, (k, v) ∈ items →
         ∃ e, entries_for db' u "employee" k = [e] ∧ value e = py_str v)
    ∧ (∀ u' c' k', (u' = u → c' = "employee" → k' ∉ items.*1) →
         entries_for db' u' c' k' = entries_for db u' c' k').
Proof.
  revert db. induction items as [|[k0 v0] items IH]; intros db Hnd Huniq.
  - exists db. split_and!; try done. by intros k v ?%elem_of_nil.
  - simpl in Hnd. apply NoDup_cons in Hnd as [Hk0 Hnd]. simpl.
    pose proof (add_memory_entry_keeps_unique db u "employee" k0 (py_str v0)
                  None 100 (Some ["employee"; "profile"]) None now Huniq) as Huniq1.
    destruct (add_memory_entry_unique db u "employee" k0 (py_str v0) None 100
                (Some ["employee"; "profile"]) None now (Huniq _ _ _))
      as (db1 & e0 & Hcall & Hkey & Hval & _ & Hmem & _ & Hother).
    rewrite Hcall in Huniq1 |- *. simpl in Huniq1.
    destruct (IH db1 Hnd Huniq1) as (db' & Hloop & Huniq' & Hmem' & Hin & Hout).
    exists db'. split_and!; [done|done|congruence| |].
    + intros k v [[= -> ->]|Hkv]%elem_of_cons.
      * exists e0. split; [|done]. rewrite Hout; [done|]. by intros _ _.
      * by apply Hin.
    + intros u' c' k' Hnot. rewrite Hout.
      * apply Hother. intros [= -> -> ->]. apply (Hnot eq_refl eq_refl). by left.
      * intros Hu Hc Hk. apply (Hnot Hu Hc). by right.
Qed.

Lemma update_employee_facts_entries db u facts now :
  entries_unique db →
  ∃ db' memory,
    update_employee_facts db u facts now = (db', Ok memory)
    ∧ ∀ k v, facts !! k = Some v →
        ∃ e, entries_for db' u "employee" k = [e] ∧ value e = py_str v.
Proof.
  intros Huniq. unfold update_employee_facts.
  destruct (get_or_create_user_memory db u now) as [db0 memory] eqn:Hget.
  match goal with |- context [add_fact_entries ?d _ _ _] => set (db1 := d) end.
  assert (memory_entries db1 = memory_entries db) as Hsame.
  { subst db1. unfold get_or_create_user_memory in Hget.
    destruct (user_memories db !! u); injection Hget as <- <-; done. }
  destruct (add_fact_entries_unique (map_to_list facts) db1 u now)
    as (db' & Hloop & _ & _ & Hin & _).
  { apply NoDup_fst_map_to_list. }
  { intros u' c' k'. unfold entries_for. rewrite Hsame. apply Huniq. }
  rewrite Hloop. do 2 eexists. split; [reflexivity|].
  intros k v Hkv. apply Hin. by apply elem_of_map_to_list.
Qed.

Lemma add_active_project_entry db u project now :
  entries_unique db →
  ∃ db' memory e,
    add_active_project db u project now = (db', Ok memory)
    ∧ entries_for db' u "project"
        ("active_project_" +:+ py_str (get_name project)) = [e]
    ∧ value e = json_dumps project.
Proof.
  intros Huniq. unfold add_active_project.
  destruct (get_or_create_user_memory db u now) as [db0 memory] eqn:Hget.
  match goal with |- context [add_memory_entry ?d _ _ _ _ _ _ _ _ _] =>
    set (db1 := d) end.
  assert (memory_entries db1 = memory_entries db) as Hsame.
  { subst db1. unfold get_or_create_user_memory in Hget.
    destruct (user_memories db !! u); injection Hget as <- <-; done. }
  destruct (add_memory_entry_unique db1 u "project"
              ("active_project_" +:+ py_str (get_name project))
              (json_dumps project) None 100 (Some ["project"; "active"]) None now)
    as (db' & e & Hcall & Hkey & Hval & _).
  { unfold entries_for. rewrite Hsame. apply Huniq. }
  rewrite Hcall. by do 3 eexists.
Qed.

Lemma complete_project_entries db u name data now :
  memory_entries (complete_project db u name data now).1 = memory_entries db.
Proof.
  unfold complete_project, get_or_create_user_memory.
  by destruct (user_memories db !! u).
Qed.

Lemma add_conversation_summary_entries db u topic resolution extra now :
  memory_entries (add_conversation_summary db u topic resolution extra now).1
  = memory_entries db.
Proof.
  unfold add_conversation_summary, get_or_create_user_memory.
  by destruct (user_memories db !! u).
Qed.

Lemma update_domain_expertise_entries db u patch now :
  memory_entries (update_domain_expertise db u patch now).1 = memory_entries db.
Proof.
  unfold update_domain_expertise, get_or_create_user_memory.
  destruct (user_memories db !! u); simpl;
    by destruct (merge_expertise _ _).
Qed.

Lemma add_frequent_topic_entries db u topic now :
  memory_entries (add_frequent_topic db u topic now).1 = memory_entries db.
Proof.
  unfold add_frequent_topic, get_or_create_user_memory.
  by destruct (user_memories db !! u).
Qed.

(** C7, as amended: on a table with at most one row per key,
    [update_employee_facts] returns normally and leaves, for every fact of
    the patch, exactly one entry [(user, "employee", key)] holding the
    text of the fact's value; [add_active_project] returns normally and
    leaves exactly one entry [(user, "project", "active_project_<name>")]
    holding the JSON text of the project.  [complete_project],
    [add_conversation_summary], [update_domain_expertise] and
    [add_frequent_topic] do not write to the entry table. *)
Theorem mutators_and_memory_entries (db : DB) (user_id now : string) :
  entries_unique db →
  (∀ facts, ∃ db' memory,
     update_employee_facts db user_id facts now = (db', Ok memory)
     ∧ ∀ k v, facts !! k = Some v →
         ∃ e, entries_for db' user_id "employee" k = [e] ∧ value e = py_str v)
  ∧ (∀ project, ∃ db' memory e,
       add_active_project db user_id project now = (db', Ok memory)
       ∧ entries_for db' user_id "project"
           ("active_project_" +:+ py_str (get_name project)) = [e]
       ∧ value e = json_dumps project)
  ∧ (∀ name data,
       memory_entries (complete_project db user_id name data now).1
       = memory_entries db)
  ∧ (∀ topic resolution extra,
       memory_entries
         (add_conversation_summary db user_id topic resolution extra now).1
       = memory_entries db)
  ∧ (∀ patch,
       memory_entries (update_domain_expertise db user_id patch now).1
       = memory_entries db)
  ∧ (∀ topic,
       memory_entries (add_frequent_topic db user_id topic now).1
       = memory_entries db).
Proof.
  intros Huniq. split_and!.
  - intros facts. by apply update_employee_facts_entries.
  - intros project. by apply add_active_project_entry.
  - intros. apply complete_project_entries.
  - intros. apply add_conversation_summary_entries.
  - intros. apply update_domain_expertise_entries.
  - intros. apply add_frequent_topic_entries.
Qed.

End memory_entries.

Section memory_entries_examples.
Import Memory Examples.

Lemma entries_unique_empty : entries_unique empty_db.
Proof. intros u c k. simpl. lia. Qed.

Lemma mutators_and_memory_entries_witness :
  entries_unique empty_db
  ∧ (∃ db' memory e,
       @add_active_project demo_runtime empty_db "u1" project_planned "t1"
       = (db', Ok memory)
       ∧ entries_for db' "u1" "project"
           ("active_project_" +:+ @py_str demo_runtime (get_name project_planned))
         = [e]
       ∧ value e = @json_dumps demo_runtime project_planned)
  ∧ memory_entries (add_frequent_topic empty_db "u1" "rating" "t1").1 = [].
Proof.
  split; [exact entries_unique_empty|].
  pose proof (mutators_and_memory_entries (H:=demo_runtime) empty_db "u1" "t1"
                entries_unique_empty) as (_ & Hproject & _ & _ & _ & Htopic).
  split; [exact (Hproject project_planned)|exact (Htopic "rating")].
Defined.

(** [add_frequent_topic] returns normally and the user still has no
    memory entry. *)
Lemma add_frequent_topic_writes_no_entry :
  let out := add_frequent_topic empty_db "u1" "rating" "t1" in
  topics_of out.1 "u1" = ["rating"]
  ∧ (∃ memory, out.2 = Ok memory)
  ∧ ¬ ∃ e, e ∈ memory_entries out.1 ∧ me_user_id e = "u1".
Proof.
  split_and!.
  - vm_compute. reflexivity.
  - eexists. vm_compute. reflexivity.
  - intros (e & He & _). vm_compute in He. by apply elem_of_nil in He.
Qed.

End memory_entries_examples.

(** ** The reply of the graph store *)

Section entity_paths.
Import KG.

(** What [get_entity_path] does with the reply of the store: no record
    is the value [None], a record is a path, and an exception of the
    driver is passed on. *)
Lemma get_entity_path_cases `{GraphStore} s t d :
  match run_shortest_path s t d with
  | Raise e => get_entity_path s t d = Raise e
  | Ok [] => get_entity_path s t d = Ok None
  | Ok (record :: _) =>
      get_entity_path s t d
      = Ok (Some {| nodes := path_nodes record;
                    relationships_of := path_relationships record |})
  end.
Proof.
  unfold get_entity_path. by destruct (run_shortest_path s t d) as [[|r rs]|e].
Qed.

End entity_paths.

(** ** Calls of the memory service: what each one leaves alone *)

Section service_frames.
Import Memory Service.
Context `{Runtime}.

Lemma add_memory_entry_user_memories db u c k v src conf ts md now :
  user_memories (add_memory_entry db u c k v src conf ts md now).1
  = user_memories db.
Proof.
  unfold add_memory_entry.
  by destruct (scalar_one_or_none _) as [[e|]|].
Qed.

Lemma add_memory_entry_contexts db u c k v src conf ts md now :
  conversation_contexts (add_memory_entry db u c k v src conf ts md now).1
  = conversation_contexts db.
Proof.
  unfold add_memory_entry.
  by destruct (scalar_one_or_none _) as [[e|]|].
Qed.

Lemma add_fact_entries_user_memories items db u now :
  user_memories (add_fact_entries db u items now).1 = user_memories db.
Proof.
  revert db. induction items as [|[k v] items IH]; intros db; simpl; [done|].
  pose proof (add_memory_entry_user_memories db u "employee" k (py_str v) None
                100 (Some ["employee"; "profile"]) None now) as Hm.
  destruct (add_memory_entry _ _ _ _ _ _ _ _ _ _) as [db' [e|e]]; simpl in *.
  - by rewrite IH.
  - done.
Qed.

Lemma add_fact_entries_contexts items db u now :
  conversation_contexts (add_fact_entries db u items now).1
  = conversation_contexts db.
Proof.
  revert db. induction items as [|[k v] items IH]; intros db; simpl; [done|].
  pose proof (add_memory_entry_contexts db u "employee" k (py_str v) None
                100 (Some ["employee"; "profile"]) None now) as Hm.
  destruct (add_memory_entry _ _ _ _ _ _ _ _ _ _) as [db' [e|e]]; simpl in *.
  - by rewrite IH.
  - done.
Qed.

Lemma get_or_create_user_memory_eq db u now :
  get_or_create_user_memory db u now
  = (set_user_memories (<[u := loaded db u now]> (user_memories db)) db,
     loaded db u now).
Proof.
  unfold get_or_create_user_memory, loaded, commit_memory.
  destruct (user_memories db !! u) as [m|] eqn:Hm; simpl; [|done].
  f_equal. destruct db as [ums es cs]; simpl in *. unfold set_user_memories; simpl.
  f_equal. by rewrite insert_id.
Qed.

Lemma update_employee_facts_profile db u facts now :
  user_memories (update_employee_facts db u facts now).1
  = <[u := set_updated_at now
             (set_employee_facts
                (written (employee_facts (loaded db u now))
                   (in_place (λ d, facts ∪ d)
                      (dict_or_new (employee_facts (loaded db u now)))))
                (loaded db u now))]> (user_memories db).
Proof.
  unfold update_employee_facts. rewrite get_or_create_user_memory_eq.
  match goal with |- context [add_fact_entries ?d ?u ?i ?n] =>
    pose proof (add_fact_entries_user_memories i d u n) as Hm;
    destruct (add_fact_entries d u i n) as [db' [?|?]] end;
    simpl in *; rewrite Hm; by rewrite insert_insert_eq.
Qed.

Lemma add_active_project_profile db u project now :
  user_memories (add_active_project db u project now).1
  = <[u := set_updated_at now
             (set_active_projects
                (written (active_projects (loaded db u now))
                   (in_place (λ l, upsert_project l project)
                      (list_or_new (active_projects (loaded db u now)))))
                (loaded db u now))]> (user_memories db).
Proof.
  unfold add_active_project. rewrite get_or_create_user_memory_eq.
  match goal with |- context [add_memory_entry ?d ?u ?c ?k ?v ?s ?cf ?t ?m ?n] =>
    pose proof (add_memory_entry_user_memories d u c k v s cf t m n) as Hm;
    destruct (add_memory_entry d u c k v s cf t m n) as [db' [?|?]] end;
    simpl in *; rewrite Hm; by rewrite insert_insert_eq.
Qed.

Lemma get_or_create_conversation_context_user_memories db u k t title_ now :
  user_memories (get_or_create_conversation_context db u k t title_ now).1
  = user_memories db.
Proof.
  unfold get_or_create_conversation_context.
  by destruct (scalar_one_or_none _) as [[e|]|].
Qed.

Lemma add_conversation_to_context_user_memories db u k cid f d a now :
  user_memories (add_conversation_to_context db u k cid f d a now).1
  = user_memories db.
Proof.
  unfold add_conversation_to_context.
  pose proof (get_or_create_conversation_context_user_memories db u k "project"
                None now) as Hm.
  by destruct (get_or_create_conversation_context _ _ _ _ _ _) as [db' [c|e]].
Qed.

(** A call of one user never changes the profile of another user. *)
Lemma run_call_other_user db c now other :
  other ≠ call_user c →
  user_memories (run_call db c now).1 !! other = user_memories db !! other.
Proof.
  intros Hne. destruct c; simpl in *.
  - rewrite update_employee_facts_profile. by rewrite lookup_insert_ne.
  - unfold update_team_info. rewrite get_or_create_user_memory_eq. simpl.
    by rewrite !lookup_insert_ne.
  - rewrite add_active_project_profile. by rewrite lookup_insert_ne.
  - unfold complete_project. rewrite get_or_create_user_memory_eq. simpl.
    by rewrite !lookup_insert_ne.
  - unfold add_conversation_summary. rewrite get_or_create_user_memory_eq. simpl.
    by rewrite !lookup_insert_ne.
  - unfold update_domain_expertise. rewrite get_or_create_user_memory_eq.
    destruct (merge_expertise _ _); simpl; by rewrite !lookup_insert_ne.
  - unfold add_frequent_topic. rewrite get_or_create_user_memory_eq. simpl.
    by rewrite !lookup_insert_ne.
  - by rewrite add_memory_entry_user_memories.
  - unfold record_interaction. rewrite get_or_create_user_memory_eq.
    cbv beta iota zeta. destruct (fits_integer _); simpl;
      by rewrite !lookup_insert_ne.
  - by rewrite get_or_create_conversation_context_user_memories.
  - by rewrite add_conversation_to_context_user_memories.
Qed.

(** [add_memory_entry] by the number of rows that carry the key. *)
Lemma add_memory_entry_cases db u c k v src conf ts md now :
  add_memory_entry db u c k v src conf ts md now
  = match entries_for db u c k with
    | [] =>
        (set_memory_entries
           (memory_entries db ++ [new_entry u c k v src conf ts md now]) db,
         Ok (new_entry u c k v src conf ts md now))
    | [e0] =>
        (set_memory_entries
           ((λ e, if entry_matches u c k e
                  then updated_entry e0 v conf ts md now else e)
              <$> memory_entries db) db,
         Ok (updated_entry e0 v conf ts md now))
    | _ => (db, Raise MultipleResultsFound)
    end.
Proof.
  unfold add_memory_entry, entries_for.
  by destruct (List.filter _ (memory_entries db)) as [|e0 [|e1 rest]].
Qed.

Lemma entry_matches_updated u c k e0 v conf ts md now :
  entry_matches u c k (updated_entry e0 v conf ts md now)
  = entry_matches u c k e0.
Proof.
  unfold updated_entry. destruct ts as [[|t ts]|], md as [md|];
    try destruct (dict_truthy md); done.
Qed.

Lemma entry_matches_new u c k v src conf ts md now :
  entry_matches u c k (new_entry u c k v src conf ts md now) = true.
Proof. by apply entry_matches_true. Qed.

Lemma entries_for_head_matches db u c k e0 rest :
  entries_for db u c k = e0 :: rest → entry_matches u c k e0 = true.
Proof.
  intros Hrows.
  assert (In e0 (entries_for db u c k)) as Hin by (rewrite Hrows; by left).
  unfold entries_for in Hin. by apply filter_In in Hin as [_ ?].
Qed.

(** Rows that do not carry the key written by [add_memory_entry] are
    left alone, whatever the state of the table. *)
Lemma add_memory_entry_filter_other db u c k v src conf ts md now
    (P : MemoryEntry → bool) :
  (∀ e, entry_matches u c k e = true → P e = false) →
  List.filter P (memory_entries (add_memory_entry db u c k v src conf ts md now).1)
  = List.filter P (memory_entries db).
Proof.
  intros HP. rewrite add_memory_entry_cases.
  destruct (entries_for db u c k) as [|e0 [|e1 rest]] eqn:Hrows; simpl; [| |done].
  - rewrite List.filter_app. simpl.
    rewrite HP; [apply app_nil_r|]. apply entry_matches_new.
  - apply filter_replace_other; [done|]. apply HP.
    rewrite entry_matches_updated. by eapply entries_for_head_matches.
Qed.

Lemma add_fact_entries_filter_other items db u now (P : MemoryEntry → bool) :
  (∀ e, me_user_id e = u → P e = false) →
  List.filter P (memory_entries (add_fact_entries db u items now).1)
  = List.filter P (memory_entries db).
Proof.
  intros HP. revert db.
  induction items as [|[k v] items IH]; intros db; simpl; [done|].
  pose proof (add_memory_entry_filter_other db u "employee" k (py_str v) None
                100 (Some ["employee"; "profile"]) None now P) as Hm.
  destruct (add_memory_entry _ _ _ _ _ _ _ _ _ _) as [db' [e|e]]; simpl in *.
  - rewrite IH. apply Hm. intros e' (? & _)%entry_matches_true. by apply HP.
  - apply Hm. intros e' (? & _)%entry_matches_true. by apply HP.
Qed.

(** The entry table through the calls that do not write to it. *)
Lemma run_call_entries db c now :
  writes_entries c = false →
  memory_entries (run_call db c now).1 = memory_entries db.
Proof.
  destruct c; simpl; try done; intros _.
  - unfold update_team_info. by rewrite get_or_create_user_memory_eq.
  - apply complete_project_entries.
  - apply add_conversation_summary_entries.
  - apply update_domain_expertise_entries.
  - apply add_frequent_topic_entries.
  - unfold record_interaction. rewrite get_or_create_user_memory_eq.
    cbv beta iota zeta. by destruct (fits_integer _).
  - unfold get_or_create_conversation_context.
    by destruct (scalar_one_or_none _) as [[e|]|].
  - unfold add_conversation_to_context, get_or_create_conversation_context.
    by destruct (scalar_one_or_none _) as [[e|]|].
Qed.

(** The entries of other users through any call. *)
Lemma run_call_entries_other db c now (P : MemoryEntry → bool) :
  (∀ e, me_user_id e = call_user c → P e = false) →
  List.filter P (memory_entries (run_call db c now).1)
  = List.filter P (memory_entries db).
Proof.
  intros HP. destruct (writes_entries c) eqn:Hw;
    [|by rewrite run_call_entries].
  destruct c; simpl in *; try done.
  - unfold update_employee_facts. rewrite get_or_create_user_memory_eq.
    match goal with |- context [add_fact_entries ?d ?u ?i ?n] =>
      pose proof (add_fact_entries_filter_other i d u n P HP) as Hm;
      destruct (add_fact_entries d u i n) as [db' [?|?]] end; exact Hm.
  - unfold add_active_project. rewrite get_or_create_user_memory_eq.
    match goal with |- context [add_memory_entry ?d ?u ?c ?k ?v ?s ?cf ?t ?m ?n] =>
      pose proof (add_memory_entry_filter_other d u c k v s cf t m n P) as Hm;
      destruct (add_memory_entry d u c k v s cf t m n) as [db' [?|?]] end;
      apply Hm; intros e' (? & _)%entry_matches_true; by apply HP.
  - apply add_memory_entry_filter_other.
    intros e' (? & _)%entry_matches_true. by apply HP.
Qed.

(** The two context calls by the number of rows that carry the key. *)
Lemma get_or_create_conversation_context_cases db u k t title_ now :
  get_or_create_conversation_context db u k t title_ now
  = match contexts_for db u k with
    | [] =>
        (set_conversation_contexts
           (conversation_contexts db
              ++ [new_context u t k (title_or title_ k) now]) db,
         Ok (new_context u t k (title_or title_ k) now))
    | [c] => (db, Ok c)
    | _ => (db, Raise MultipleResultsFound)
    end.
Proof.
  unfold get_or_create_conversation_context, contexts_for.
  by destruct (List.filter _ (conversation_contexts db)) as [|c [|c1 rest]].
Qed.

Lemma contexts_for_head_matches db u k c rest :
  contexts_for db u k = c :: rest → context_matches u k c = true.
Proof.
  intros Hrows.
  assert (In c (contexts_for db u k)) as Hin by (rewrite Hrows; by left).
  unfold contexts_for in Hin. by apply filter_In in Hin as [_ ?].
Qed.

Lemma context_matches_true u k c :
  context_matches u k c = true ↔ cc_user_id c = u ∧ context_key c = k.
Proof.
  unfold context_matches. rewrite andb_true_iff, !bool_decide_eq_true. tauto.
Qed.

Lemma get_or_create_conversation_context_filter_other db u k t title_ now
    (P : ConversationContext → bool) :
  (∀ c, context_matches u k c = true → P c = false) →
  List.filter P
    (conversation_contexts (get_or_create_conversation_context db u k t title_ now).1)
  = List.filter P (conversation_contexts db).
Proof.
  intros HP. rewrite get_or_create_conversation_context_cases.
  destruct (contexts_for db u k) as [|c [|c1 rest]]; simpl; [|done..].
  rewrite List.filter_app. simpl.
  rewrite HP; [apply app_nil_r|]. apply context_matches_new.
Qed.

Lemma add_conversation_to_context_filter_other db u k cid f d a now
    (P : ConversationContext → bool) :
  (∀ c, context_matches u k c = true → P c = false) →
  List.filter P
    (conversation_contexts (add_conversation_to_context db u k cid f d a now).1)
  = List.filter P (conversation_contexts db).
Proof.
  intros HP. unfold add_conversation_to_context.
  rewrite get_or_create_conversation_context_cases.
  destruct (contexts_for db u k) as [|c [|c1 rest]] eqn:Hrows; simpl; [| |done].
  - rewrite filter_replace_other; [|done|].
    + rewrite List.filter_app. simpl.
      rewrite HP; [apply app_nil_r|]. apply context_matches_new.
    + apply HP. rewrite context_matches_link. apply context_matches_new.
  - apply filter_replace_other; [done|]. apply HP.
    rewrite context_matches_link. by eapply contexts_for_head_matches.
Qed.

(** The context table through the calls that do not write to it. *)
Lemma run_call_contexts db c now :
  writes_contexts c = false →
  conversation_contexts (run_call db c now).1 = conversation_contexts db.
Proof.
  destruct c; simpl; try done; intros _.
  - unfold update_employee_facts. rewrite get_or_create_user_memory_eq.
    match goal with |- context [add_fact_entries ?d ?u ?i ?n] =>
      pose proof (add_fact_entries_contexts i d u n) as Hm;
      destruct (add_fact_entries d u i n) as [db' [?|?]] end; exact Hm.
  - unfold update_team_info. by rewrite get_or_create_user_memory_eq.
  - unfold add_active_project. rewrite get_or_create_user_memory_eq.
    match goal with |- context [add_memory_entry ?d ?u ?c ?k ?v ?s ?cf ?t ?m ?n] =>
      pose proof (add_memory_entry_contexts d u c k v s cf t m n) as Hm;
      destruct (add_memory_entry d u c k v s cf t m n) as [db' [?|?]] end;
      exact Hm.
  - unfold complete_project. by rewrite get_or_create_user_memory_eq.
  - unfold add_conversation_summary. by rewrite get_or_create_user_memory_eq.
  - unfold update_domain_expertise. rewrite get_or_create_user_memory_eq.
    by destruct (merge_expertise _ _).
  - unfold add_frequent_topic. by rewrite get_or_create_user_memory_eq.
  - apply add_memory_entry_contexts.
  - unfold record_interaction. rewrite get_or_create_user_memory_eq.
    cbv beta iota zeta. by destruct (fits_integer _).
Qed.

(** The contexts of other users through any call. *)
Lemma run_call_contexts_other db c now (P : ConversationContext → bool) :
  (∀ x, cc_user_id x = call_user c → P x = false) →
  List.filter P (conversation_contexts (run_call db c now).1)
  = List.filter P (conversation_contexts db).
Proof.
  intros HP. destruct (writes_contexts c) eqn:Hw;
    [|by rewrite run_call_contexts].
  destruct c; simpl in *; try done.
  - apply get_or_create_conversation_context_filter_other.
    intros x (? & _)%context_matches_true. by apply HP.
  - apply add_conversation_to_context_filter_other.
    intros x (? & _)%context_matches_true. by apply HP.
Qed.

Lemma get_memory_entries_ext db db' u cat ts :
  List.filter (λ e, bool_decide (me_user_id e = u)) (memory_entries db')
  = List.filter (λ e, bool_decide (me_user_id e = u)) (memory_entries db) →
  get_memory_entries db' u cat ts = get_memory_entries db u cat ts.
Proof. unfold get_memory_entries. by intros ->. Qed.

(** X1: a call made for one user leaves every other user's profile, memory
    entries and conversation contexts as they were. *)
Theorem calls_leave_other_users_alone (db : DB) (c : call) (now other : string) :
  other ≠ call_user c →
  let db' := (run_call db c now).1 in
  user_memories db' !! other = user_memories db !! other
  ∧ (∀ cat ts, get_memory_entries db' other cat ts
               = get_memory_entries db other cat ts)
  ∧ (∀ key_, contexts_for db' other key_ = contexts_for db other key_).
Proof.
  intros Hne db'. split_and!.
  - by apply run_call_other_user.
  - intros cat ts. apply get_memory_entries_ext. apply run_call_entries_other.
    intros e He. apply bool_decide_eq_false. congruence.
  - intros key_. unfold contexts_for. apply run_call_contexts_other.
    intros x Hx. apply not_true_is_false.
    intros (? & _)%context_matches_true. congruence.
Qed.

End service_frames.

(** Opens the call of a mutator on the row of its user. *)
Ltac open_call :=
  rewrite ?update_employee_facts_profile, ?add_active_project_profile,
    ?add_memory_entry_user_memories,
    ?get_or_create_conversation_context_user_memories,
    ?add_conversation_to_context_user_memories;
  unfold Memory.update_team_info, Memory.complete_project,
    Memory.add_conversation_summary, Memory.update_domain_expertise,
    Memory.add_frequent_topic, Memory.record_interaction;
  rewrite ?get_or_create_user_memory_eq; cbv beta iota zeta;
  try (destruct (Memory.merge_expertise _ _));
  try (destruct (Memory.find_project _ _) as [[? ?]|];
       [destruct (Memory.dict_truthy _)|]);
  try (destruct (Memory.fits_integer _) eqn:?);
  simpl; rewrite ?lookup_insert_eq; simpl.

(** ** Uniqueness of keys, and the exceptions of the service *)

Section service_invariants.
Import Memory Service.
Context `{Runtime}.

Lemma entries_unique_ext db db' :
  memory_entries db' = memory_entries db → entries_unique db → entries_unique db'.
Proof. intros Heq Hu u c k. unfold entries_for. rewrite Heq. apply Hu. Qed.

Lemma contexts_unique_ext db db' :
  conversation_contexts db' = conversation_contexts db →
  contexts_unique db → contexts_unique db'.
Proof. intros Heq Hu u k. unfold contexts_for. rewrite Heq. apply Hu. Qed.

Lemma merged_value_raises old v e : merged_value old v = Raise e → e = TypeError.
Proof.
  unfold merged_value. destruct v as [a|new]; [done|].
  destruct old as [[[| |s]|l]|]; simpl; congruence.
Qed.

Lemma foldl_merge_step_raises items d e :
  foldl merge_step (Ok d) items = Raise e → e = TypeError.
Proof.
  revert d. induction items as [|[k v] items IH]; intros d; [done|].
  cbn [foldl].
  replace (merge_step (Ok d) (k, v))
    with (let* x := merged_value (d !! k) v in Ok (<[k := x]> d))
    by reflexivity.
  destruct (merged_value (d !! k) v) as [x|e'] eqn:Hv; simpl.
  - apply IH.
  - rewrite foldl_merge_step_raise. intros [= <-]. by eapply merged_value_raises.
Qed.

Lemma get_or_create_conversation_context_unique db u k t title_ now :
  contexts_unique db →
  contexts_unique (get_or_create_conversation_context db u k t title_ now).1.
Proof.
  intros Hu u' k'.
  destruct (decide ((u', k') = (u, k))) as [[= -> ->]|Hne].
  - rewrite get_or_create_conversation_context_cases.
    pose proof (Hu u k) as Hlen.
    destruct (contexts_for db u k) as [|c [|c1 rest]] eqn:Hrows; simpl in *;
      [|by rewrite Hrows..].
    unfold contexts_for in *. simpl. rewrite List.filter_app, Hrows. simpl.
    by rewrite context_matches_new.
  - unfold contexts_for.
    rewrite get_or_create_conversation_context_filter_other; [apply Hu|].
    intros c (? & ?)%context_matches_true. apply not_true_is_false.
    intros (? & ?)%context_matches_true. apply Hne. congruence.
Qed.

Lemma add_conversation_to_context_keeps_unique db u k cid f d a now :
  contexts_unique db →
  contexts_unique (add_conversation_to_context db u k cid f d a now).1.
Proof.
  intros Hu u' k'.
  destruct (decide ((u', k') = (u, k))) as [[= -> ->]|Hne].
  - destruct (add_conversation_to_context_unique db u k cid f d a now (Hu u k))
      as (db' & Hcall & Hrows & _).
    rewrite Hcall. simpl. rewrite Hrows. simpl. lia.
  - unfold contexts_for.
    rewrite add_conversation_to_context_filter_other; [apply Hu|].
    intros c (? & ?)%context_matches_true. apply not_true_is_false.
    intros (? & ?)%context_matches_true. apply Hne. congruence.
Qed.

(** Every call keeps the keys of both tables unique. *)
Lemma run_call_keeps_unique db c now :
  entries_unique db → contexts_unique db →
  entries_unique (run_call db c now).1 ∧ contexts_unique (run_call db c now).1.
Proof.
  intros He Hc.
  destruct (writes_entries c) eqn:Hwe, (writes_contexts c) eqn:Hwc.
  - by destruct c.
  - split; [|apply (contexts_unique_ext db); [by apply run_call_contexts|done]].
    destruct c; simpl in *; try done.
    + unfold update_employee_facts. rewrite get_or_create_user_memory_eq.
      match goal with |- context [add_fact_entries ?d ?u ?i ?n] =>
        destruct (add_fact_entries_unique i d u n) as (db' & -> & Hu' & _) end;
        [apply NoDup_fst_map_to_list|by apply (entries_unique_ext db)|done].
    + unfold add_active_project. rewrite get_or_create_user_memory_eq.
      match goal with |- context [add_memory_entry ?d ?u ?c ?k ?v ?s ?cf ?t ?m ?n] =>
        pose proof (add_memory_entry_keeps_unique d u c k v s cf t m n) as Hu';
        destruct (add_memory_entry d u c k v s cf t m n) as [db' [?|?]] end;
        apply Hu'; by apply (entries_unique_ext db).
    + by apply add_memory_entry_keeps_unique.
  - split; [apply (entries_unique_ext db); [by apply run_call_entries|done]|].
    destruct c; simpl in *; try done.
    + by apply get_or_create_conversation_context_unique.
    + by apply add_conversation_to_context_keeps_unique.
  - split; [apply (entries_unique_ext db); [by apply run_call_entries|done]
           |apply (contexts_unique_ext db); [by apply run_call_contexts|done]].
Qed.

(** With unique keys no call fails on [scalar_one_or_none]. *)
Lemma run_call_finds_no_duplicates db c now :
  entries_unique db → contexts_unique db →
  (run_call db c now).2 ≠ Raise MultipleResultsFound.
Proof.
  intros He Hc. destruct c; simpl.
  - by destruct (update_employee_facts_entries db user_id facts now He)
      as (db' & m & -> & _).
  - unfold update_team_info. by rewrite get_or_create_user_memory_eq.
  - by destruct (add_active_project_entry db user_id project now He)
      as (db' & m & e & -> & _).
  - unfold complete_project. by rewrite get_or_create_user_memory_eq.
  - unfold add_conversation_summary.
    by rewrite get_or_create_user_memory_eq.
  - unfold update_domain_expertise. rewrite get_or_create_user_memory_eq.
    cbv beta iota zeta.
    destruct (merge_expertise _ _) as [d|e] eqn:Hm; simpl; [done|].
    by apply foldl_merge_step_raises in Hm as ->.
  - unfold add_frequent_topic. by rewrite get_or_create_user_memory_eq.
  - by destruct (add_memory_entry_unique db user_id category_ key_ value_
                source_conversation_id_ confidence_ tags_ metadata_ now (He _ _ _))
      as (db' & e & -> & _).
  - unfold record_interaction. rewrite get_or_create_user_memory_eq.
    cbv beta iota zeta. by destruct (fits_integer _).
  - rewrite get_or_create_conversation_context_cases.
    pose proof (Hc user_id context_key_) as Hlen.
    destruct (contexts_for db user_id context_key_) as [|c [|c1 rest]];
      simpl in *; [done..|lia].
  - by destruct (add_conversation_to_context_unique db user_id context_key_
                conversation_id key_facts_ decisions_ action_items_ now (Hc _ _))
      as (db' & -> & _).
Qed.

Lemma run_calls_keep_unique db calls :
  entries_unique db → contexts_unique db →
  entries_unique (run_calls db calls) ∧ contexts_unique (run_calls db calls).
Proof.
  revert db. induction calls as [|[c now] calls IH]; intros db He Hc; [done|].
  simpl. destruct (run_call_keeps_unique db c now He Hc). by apply IH.
Qed.

(** X2: starting from empty tables, whatever calls were made and whether
    they returned or raised, the memory entries and the conversation
    contexts have unique keys, so that no call ever raises
    [MultipleResultsFound] from [scalar_one_or_none]. *)
Theorem service_never_finds_duplicates (calls : list (call * string))
    (c : call) (now : string) :
  let db := run_calls empty_db calls in
  entries_unique db ∧ contexts_unique db
  ∧ (run_call db c now).2 ≠ Raise MultipleResultsFound.
Proof.
  intros db.
  destruct (run_calls_keep_unique empty_db calls) as [He Hc].
  { intros u c' k. simpl. lia. }
  { intros u k. simpl. lia. }
  split_and!; [done..|]. by apply run_call_finds_no_duplicates.
Qed.

End service_invariants.

(** ** Summaries, counters and facts of the profile *)

Section profile_fields.
Import Memory Service.
Context `{Runtime}.

Lemma summaries_of_loaded db u now :
  or_nil (conversation_summaries (loaded db u now)) = summaries_of db u.
Proof. unfold loaded, summaries_of. by destruct (user_memories db !! u). Qed.

Lemma messages_of_loaded db u now :
  total_messages (loaded db u now) = messages_of db u.
Proof. unfold loaded, messages_of. by destruct (user_memories db !! u). Qed.

Lemma summaries_of_other db db' u :
  user_memories db' !! u = user_memories db !! u →
  summaries_of db' u = summaries_of db u.
Proof. unfold summaries_of. by intros ->. Qed.

Lemma messages_of_other db db' u :
  user_memories db' !! u = user_memories db !! u →
  messages_of db' u = messages_of db u.
Proof. unfold messages_of. by intros ->. Qed.

Lemma summaries_written column s :
  or_nil (written column
            (let a := in_place (λ l, l ++ [s]) (list_or_new column) in
             if decide (50 < length (held a))%nat
             then assign (last_n 50 (held a)) a else a))
  = summaries_after (or_nil column) s.
Proof.
  destruct column as [[|s0 l]|]; simpl; [done| |done].
  unfold written. rewrite !length_app. simpl.
  repeat case_decide; simpl; try done; lia.
Qed.

(** What a call does to the summaries of a user. *)
Lemma run_call_summaries db c now u :
  summaries_of (run_call db c now).1 u
  = match appended_summary u c now with
    | Some s => summaries_after (summaries_of db u) s
    | None => summaries_of db u
    end.
Proof.
  destruct (decide (u = call_user c)) as [->|Hne].
  - destruct c; simpl;
      rewrite ?decide_True by done;
      rewrite <- (summaries_of_loaded db _ now);
      unfold summaries_of; open_call; try done;
      try (unfold loaded; by destruct (user_memories db !! _)).
    apply summaries_written.
  - rewrite (summaries_of_other db) by (by apply run_call_other_user).
    destruct c; simpl in *; try done. by rewrite decide_False.
Qed.

Lemma run_calls_summaries calls db u l0 :
  summaries_of db u = take 1 l0 →
  summaries_of (run_calls db calls) u
  = take 1 (l0 ++ omap (λ c, appended_summary u c.1 c.2) calls).
Proof.
  revert db l0. induction calls as [|[c now] calls IH]; intros db l0 Hdb.
  - simpl. by rewrite app_nil_r.
  - simpl. pose proof (run_call_summaries db c now u) as Hstep.
    destruct (appended_summary u c now) as [s|] eqn:Hs.
    + rewrite (IH _ (l0 ++ [s])).
      * by rewrite <- app_assoc.
      * rewrite Hstep, Hdb. by destruct l0 as [|s0 [|s1 l0]].
    + apply IH. by rewrite Hstep.
Qed.

(** X3: [add_conversation_summary] stores a summary in an empty list; in
    a list that holds summaries the [append] is made in place and is not
    written, unless the list passes 50 entries and is cut by an
    assignment.  So after any run of calls on empty tables the summaries
    of a user are the first summary that was built for that user, and
    nothing else. *)
Theorem summaries_keep_only_the_first (calls : list (call * string)) (u : string) :
  (∀ db c now,
     summaries_of (run_call db c now).1 u
     = match appended_summary u c now with
       | Some s => summaries_after (summaries_of db u) s
       | None => summaries_of db u
       end)
  ∧ summaries_of (run_calls empty_db calls) u
    = take 1 (omap (λ c, appended_summary u c.1 c.2) calls).
Proof.
  split; [intros; apply run_call_summaries|].
  apply (run_calls_summaries calls empty_db u []). done.
Qed.

(** What a call does to the message counter of a user. *)
Lemma run_call_messages db c now u :
  messages_of (run_call db c now).1 u
  = if records_interaction u c && fits_integer (messages_of db u + 1)
    then messages_of db u + 1 else messages_of db u.
Proof.
  destruct (decide (u = call_user c)) as [->|Hne].
  - destruct c; simpl;
      rewrite ?bool_decide_eq_true_2 by done;
      rewrite <- (messages_of_loaded db _ now);
      unfold messages_of; open_call; rewrite ?Heqb; simpl; try done;
      unfold loaded; by destruct (user_memories db !! _).
  - rewrite (messages_of_other db) by (by apply run_call_other_user).
    destruct c; simpl in *; try done. by rewrite bool_decide_eq_false_2.
Qed.

Lemma run_calls_messages calls db u n :
  messages_of db u = Z.min 2147483647 (Z.of_nat n) →
  messages_of (run_calls db calls) u
  = Z.min 2147483647
      (Z.of_nat (n + length (List.filter (λ c, records_interaction u c.1) calls))).
Proof.
  revert db n. induction calls as [|[c now] calls IH]; intros db n Hdb.
  - simpl. by rewrite Nat.add_0_r.
  - simpl. pose proof (run_call_messages db c now u) as Hstep.
    destruct (records_interaction u c) eqn:Hc; simpl in *.
    + rewrite (IH _ (S n)); [f_equal; lia|].
      rewrite Hstep, Hdb. unfold fits_integer.
      destruct (_ && _) eqn:Hfits.
      * apply andb_true_iff in Hfits as [_ ?%Z.leb_le]. lia.
      * apply andb_false_iff in Hfits as [?%Z.leb_gt|?%Z.leb_gt]; lia.
    + apply IH. by rewrite Hstep.
Qed.

(** X4: the message counter of a user counts the [record_interaction]
    calls made for that user, up to the largest value of the [Integer]
    column: after any run of calls on empty tables it is their number or
    2147483647, whichever is smaller.  No call lowers it, and at
    2147483647 [record_interaction] raises. *)
Theorem total_messages_counts_interactions (calls : list (call * string))
    (u : string) (c : call) (now : string) :
  let db := run_calls empty_db calls in
  messages_of db u
  = Z.min 2147483647
      (Z.of_nat (length (List.filter (λ c, records_interaction u c.1) calls)))
  ∧ messages_of db u ≤ messages_of (run_call db c now).1 u
  ∧ (run_call db (RecordInteraction u) now).2
    = (if decide (messages_of db u < 2147483647) then Ok tt
       else Raise DBAPIError).
Proof.
  intros db.
  assert (messages_of db u
          = Z.min 2147483647
              (Z.of_nat (length (List.filter
                                   (λ c, records_interaction u c.1) calls))))
    as Hcount by apply (run_calls_messages calls empty_db u 0 eq_refl).
  split_and!; [done|rewrite run_call_messages; case_match; lia|].
  simpl. unfold record_interaction.
  rewrite get_or_create_user_memory_eq. cbv beta iota zeta.
  rewrite messages_of_loaded. unfold fits_integer.
  destruct (_ && _) eqn:Hfits; simpl.
  - apply andb_true_iff in Hfits as [_ ?%Z.leb_le].
    rewrite decide_True; [done|lia].
  - apply andb_false_iff in Hfits as [?%Z.leb_gt|?%Z.leb_gt];
      (rewrite decide_False; [done|lia]).
Qed.



(** X6: once a profile exists, [get_or_create_user_memory] returns it and
    changes nothing, at whatever time it is called; a profile is only
    created for a user without one, with every field empty. *)
Theorem get_or_create_user_memory_idempotent (db : DB) (u now1 now2 : string) :
  let first := get_or_create_user_memory db u now1 in
  get_or_create_user_memory first.1 u now2 = first
  ∧ user_memories first.1 !! u = Some first.2
  ∧ first.2 = default (new_user_memory u now1) (user_memories db !! u)
  ∧ (∀ other, other ≠ u → user_memories first.1 !! other = user_memories db !! other).
Proof.
  unfold get_or_create_user_memory.
  destruct (user_memories db !! u) as [m|] eqn:Hm; simpl.
  - rewrite Hm. done.
  - rewrite lookup_insert_eq. split_and!; try done.
    intros other Hne. by rewrite lookup_insert_ne.
Qed.

End profile_fields.

(** ** Completing projects *)

Section complete_projects.
Import Memory Service.
Context `{Runtime}.

Lemma find_project_split n l :
  match find_project n l with
  | Some (i, p) =>
      ∃ l1 l2, l = l1 ++ p :: l2 ∧ length l1 = i ∧ named n l1 = []
               ∧ get_name p = n
  | None => named n l = []
  end.
Proof.
  unfold find_project.
  destruct (list_find _ l) as [[i p]|] eqn:Hfind.
  - apply list_find_split in Hfind as (l1 & l2 & -> & <- & Hl1 & Hp).
    exists l1, l2. split_and!; try done. by apply named_none.
  - apply list_find_None in Hfind. by apply named_none.
Qed.

Lemma projects_of_loaded db u now :
  or_nil (active_projects (loaded db u now)) = projects_of db u.
Proof. unfold loaded, projects_of. by destruct (user_memories db !! u). Qed.

Lemma history_of_loaded db u now :
  or_nil (project_history (loaded db u now)) = history_of db u.
Proof. unfold loaded, history_of. by destruct (user_memories db !! u). Qed.

(** [complete_project] on the two lists of the profile. *)
Lemma complete_project_lists db u name data now :
  let n := PAtom (AStr name) in
  let db' := (complete_project db u name data now).1 in
  projects_of db' u = projects_of db u
  ∧ history_of db' u
    = match head (named n (projects_of db u)), history_of db u with
      | Some p, [] => [completed p data now]
      | _, history => history
      end.
Proof.
  intros n db'. subst db'. unfold complete_project.
  rewrite get_or_create_user_memory_eq. cbv beta iota zeta.
  rewrite <- (projects_of_loaded db u now), <- (history_of_loaded db u now).
  set (m := loaded db u now).
  assert (held (list_or_new (active_projects m)) = or_nil (active_projects m))
    as Hheld by (by destruct (active_projects m) as [[|p0 l]|]).
  rewrite Hheld.
  pose proof (find_project_split n (or_nil (active_projects m))) as Hsplit.
  fold n.
  destruct (find_project n (or_nil (active_projects m))) as [[i p]|].
  - destruct Hsplit as (l1 & l2 & Hl & _ & Hl1 & Hp).
    rewrite get_name_truthy by (by rewrite Hp).
    unfold projects_of at 1, history_of at 1. simpl.
    rewrite !lookup_insert_eq. simpl.
    rewrite Hl, named_app, Hl1, named_cons_eq by done. simpl. split.
    + destruct (active_projects m) as [[|p0 l]|]; simpl in *; try done;
        by destruct l1.
    + by destruct (project_history m) as [[|h0 h]|].
  - unfold projects_of at 1, history_of at 1. simpl.
    rewrite !lookup_insert_eq. simpl. rewrite Hsplit. simpl. split.
    + by destruct (active_projects m) as [[|p0 l]|].
    + by destruct (or_nil (project_history m)).
Qed.

(** X7: [complete_project] always returns, and it never takes a project
    out of the active list: [remove] changes the loaded list in place,
    which the commit does not write.  The completion record of the first
    project with the name (the completion data laid over its fields, and
    [completed_at] set to the time of the call) is stored in an empty
    history; a history that holds records stays as it is. *)
Theorem complete_project_keeps_project_active (db : DB) (u name : string)
    (data : gmap string pyval) (now : string) :
  let n := PAtom (AStr name) in
  let db' := (complete_project db u name data now).1 in
  (∃ memory, (complete_project db u name data now).2 = Ok memory)
  ∧ projects_of db' u = projects_of db u
  ∧ history_of db' u
    = match head (named n (projects_of db u)), history_of db u with
      | Some p, [] => [completed p data now]
      | _, history => history
      end
  ∧ ∀ p, completed p data now !! "completed_at" = Some (PAtom (AStr now))
      ∧ (∀ k v, k ≠ "completed_at" → data !! k = Some v →
           completed p data now !! k = Some v)
      ∧ (∀ k, k ≠ "completed_at" → data !! k = None →
           completed p data now !! k = p !! k).
Proof.
  intros n db'. split_and!.
  - unfold complete_project. rewrite get_or_create_user_memory_eq. by eexists.
  - apply complete_project_lists.
  - apply complete_project_lists.
  - intros p. unfold completed. split_and!.
    + by rewrite lookup_insert_eq.
    + intros k v Hk Hv. rewrite lookup_insert_ne by done.
      by apply lookup_union_Some_l.
    + intros k Hk Hv. rewrite lookup_insert_ne by done.
      by apply lookup_union_r.
Qed.

(** X8: a user without active projects and without history adds a
    project under a name and then completes it under that name.  Both
    calls store what they append, since both lists were empty, and the
    project is afterwards in the history and still in the active list. *)
Theorem add_then_complete_project (db : DB) (u name : string)
    (project data : gmap string pyval) (now1 now2 : string) :
  project !! "name" = Some (PAtom (AStr name)) →
  projects_of db u = [] → history_of db u = [] →
  let db1 := (add_active_project db u project now1).1 in
  let db2 := (complete_project db1 u name data now2).1 in
  projects_of db2 u = [project]
  ∧ history_of db2 u = [completed project data now2].
Proof.
  intros Hname Hnone Hhist db1 db2.
  assert (projects_of db1 u = [project]) as Hdb1.
  { subst db1. by rewrite projects_of_add_active_project, Hnone. }
  assert (history_of db1 u = []) as Hhist1.
  { subst db1. unfold history_of. rewrite add_active_project_profile.
    rewrite lookup_insert_eq. simpl. by rewrite history_of_loaded. }
  destruct (complete_project_lists db1 u name data now2) as [Hactive Hhistory].
  fold db2 in Hactive, Hhistory.
  rewrite Hdb1, Hhist1 in Hhistory. rewrite Hdb1 in Hactive.
  rewrite named_cons_eq in Hhistory by (by apply get_name_Some).
  done.
Qed.

End complete_projects.

(** ** Memory entries: writing twice, reading back *)

Section entries_round_trip.
Import Memory Service.
Context `{Runtime}.

Lemma elem_of_list_filter_bool {A} (P : A → bool) l x :
  x ∈ List.filter P l ↔ x ∈ l ∧ P x = true.
Proof. rewrite !list_elem_of_In. apply filter_In. Qed.

Lemma tags_updated e0 v conf ts md now t :
  t ∈ or_nil (tags (updated_entry e0 v conf ts md now))
  ↔ t ∈ or_nil (tags e0) ∨ t ∈ or_nil ts.
Proof.
  unfold updated_entry.
  destruct ts as [[|t0 ts]|], md as [md|]; try destruct (dict_truthy md); simpl;
    rewrite ?elem_of_list_of_set; set_solver.
Qed.

Lemma metadata_updated e0 v conf ts md now :
  or_empty (me_metadata (updated_entry e0 v conf ts md now))
  = or_empty md ∪ or_empty (me_metadata e0).
Proof.
  unfold updated_entry, dict_truthy.
  destruct ts as [[|t0 ts]|], md as [md|]; simpl;
    try (case_bool_decide as Hmd; simpl; [rewrite Hmd|]);
    by rewrite ?(left_id_L ∅ (∪)).
Qed.

Lemma fields_updated e0 v conf ts md now :
  let e := updated_entry e0 v conf ts md now in
  value e = v ∧ confidence e = conf ∧ me_updated_at e = now
  ∧ source_conversation_id e = source_conversation_id e0
  ∧ me_created_at e = me_created_at e0 ∧ expires_at e = expires_at e0.
Proof.
  unfold updated_entry.
  destruct ts as [[|t0 ts]|], md as [md|]; try destruct (dict_truthy md); done.
Qed.

(** X9: a second [add_memory_entry] for a key updates the row of the first
    one instead of adding a row: value, confidence and update time are
    those of the second call, the tags and the metadata of both calls are
    united, and the source conversation and the creation time stay those
    of the first call. *)
Theorem add_memory_entry_twice (db : DB) (u c k v1 v2 : string)
    (src1 src2 : option string) (conf1 conf2 : Z) (ts1 ts2 : option (list string))
    (md1 md2 : option (gmap string pyval)) (now1 now2 : string) :
  entries_for db u c k = [] →
  let db1 := (add_memory_entry db u c k v1 src1 conf1 ts1 md1 now1).1 in
  ∃ db2 e,
    add_memory_entry db1 u c k v2 src2 conf2 ts2 md2 now2 = (db2, Ok e)
    ∧ entries_for db2 u c k = [e]
    ∧ length (memory_entries db2) = S (length (memory_entries db))
    ∧ value e = v2 ∧ confidence e = conf2
    ∧ me_updated_at e = now2 ∧ me_created_at e = now1
    ∧ source_conversation_id e = src1
    ∧ (∀ t, t ∈ or_nil (tags e) ↔ t ∈ or_nil ts1 ∨ t ∈ or_nil ts2)
    ∧ or_empty (me_metadata e) = or_empty md2 ∪ or_empty md1.
Proof.
  intros Hnone db1.
  assert (db1 = set_memory_entries
                  (memory_entries db ++ [new_entry u c k v1 src1 conf1 ts1 md1 now1])
                  db) as Hdb1.
  { subst db1. by rewrite add_memory_entry_cases, Hnone. }
  assert (entries_for db1 u c k = [new_entry u c k v1 src1 conf1 ts1 md1 now1])
    as Hrows1.
  { rewrite Hdb1. unfold entries_for in *. simpl.
    rewrite List.filter_app, Hnone. simpl. by rewrite entry_matches_new. }
  rewrite add_memory_entry_cases, Hrows1.
  set (e0 := new_entry u c k v1 src1 conf1 ts1 md1 now1) in *.
  do 2 eexists. split; [reflexivity|].
  destruct (fields_updated e0 v2 conf2 ts2 md2 now2)
    as (Hv & Hc & Hu & Hs & Hcr & _).
  split_and!; try done.
  - unfold entries_for. simpl.
    rewrite filter_replace
      by (rewrite entry_matches_updated; apply entry_matches_new).
    fold (entries_for db1 u c k). by rewrite Hrows1.
  - simpl. rewrite length_fmap, Hdb1. simpl. rewrite length_app. simpl. lia.
  - intros t. rewrite tags_updated. done.
  - rewrite metadata_updated. done.
Qed.

(** X10: when the table already holds two rows with the key,
    [add_memory_entry] raises [MultipleResultsFound] and writes nothing. *)
Theorem add_memory_entry_duplicates (db : DB) (u c k v : string)
    (src : option string) (conf : Z) (ts : option (list string))
    (md : option (gmap string pyval)) (now : string) :
  (2 ≤ length (entries_for db u c k))%nat →
  add_memory_entry db u c k v src conf ts md now = (db, Raise MultipleResultsFound).
Proof.
  intros Hlen. rewrite add_memory_entry_cases.
  destruct (entries_for db u c k) as [|e0 [|e1 rest]]; simpl in Hlen; [lia..|done].
Qed.

Lemma get_memory_entries_elem db u cat ts e :
  e ∈ get_memory_entries db u cat ts ↔
  e ∈ memory_entries db ∧ me_user_id e = u
  ∧ match cat with
    | Some c => c = EmptyString ∨ category e = c
    | None => True
    end
  ∧ match ts with
    | Some (t :: ts') => ∃ x, x ∈ t :: ts' ∧ x ∈ or_nil (tags e)
    | _ => True
    end.
Proof.
  unfold get_memory_entries.
  assert (∀ l, (e ∈ match ts with
                    | Some ((_ :: _) as ts0) =>
                        List.filter (λ e, existsb
                          (λ tag, bool_decide (tag ∈ or_nil (tags e))) ts0) l
                    | _ => l
                    end)
               ↔ e ∈ l ∧ match ts with
                         | Some (t :: ts') =>
                             ∃ x, x ∈ t :: ts' ∧ x ∈ or_nil (tags e)
                         | _ => True
                         end) as Htags.
  { intros l. destruct ts as [[|t ts']|]; [tauto| |tauto].
    rewrite elem_of_list_filter_bool, existsb_exists.
    setoid_rewrite bool_decide_eq_true. setoid_rewrite <- list_elem_of_In.
    done. }
  rewrite Htags. destruct cat as [c|]; [case_decide as Hc|].
  - rewrite elem_of_list_filter_bool, bool_decide_eq_true. tauto.
  - rewrite !elem_of_list_filter_bool, !bool_decide_eq_true. tauto.
  - rewrite elem_of_list_filter_bool, bool_decide_eq_true. tauto.
Qed.

(** X11: [get_memory_entries] returns exactly the rows of the user that pass
    the filters: the category filter when a non-empty category is given,
    and the tag filter (at least one tag in common) when a non-empty tag
    list is given.  It never returns a row of another user. *)
Theorem get_memory_entries_filters (db : DB) (u : string)
    (cat : option string) (ts : option (list string)) (e : MemoryEntry) :
  (e ∈ get_memory_entries db u cat ts ↔
   e ∈ memory_entries db ∧ me_user_id e = u
   ∧ match cat with
     | Some c => c = EmptyString ∨ category e = c
     | None => True
     end
   ∧ match ts with
     | Some (t :: ts') => ∃ x, x ∈ t :: ts' ∧ x ∈ or_nil (tags e)
     | _ => True
     end).
Proof. apply get_memory_entries_elem. Qed.

(** X12: an entry written by [add_memory_entry] is read back by
    [get_memory_entries]: under its category it is the only entry with
    its key, and it is found under each tag it was written with. *)
Theorem add_then_get_memory_entry (db : DB) (u c k v : string)
    (src : option string) (conf : Z) (ts : option (list string))
    (md : option (gmap string pyval)) (now : string) :
  (length (entries_for db u c k) ≤ 1)%nat → c ≠ EmptyString →
  ∃ db' e,
    add_memory_entry db u c k v src conf ts md now = (db', Ok e)
    ∧ value e = v
    ∧ e ∈ get_memory_entries db' u (Some c) None
    ∧ e ∈ get_memory_entries db' u None None
    ∧ (∀ t, t ∈ or_nil ts → e ∈ get_memory_entries db' u (Some c) (Some [t]))
    ∧ (∀ e', e' ∈ get_memory_entries db' u (Some c) None → key e' = k → e' = e).
Proof.
  intros Hlen Hc.
  destruct (add_memory_entry_unique db u c k v src conf ts md now Hlen)
    as (db' & e & Hcall & Hrows & Hv & _).
  assert (e ∈ memory_entries db' ∧ entry_matches u c k e = true) as [Hin Hm].
  { apply elem_of_list_filter_bool. fold (entries_for db' u c k).
    rewrite Hrows. by left. }
  apply entry_matches_true in Hm as (Hu & Hcat & Hk).
  assert (∀ t, t ∈ or_nil ts → t ∈ or_nil (tags e)) as Htags.
  { intros t Ht. rewrite add_memory_entry_cases in Hcall.
    destruct (entries_for db u c k) as [|e0 [|e1 rest]]; [| |done].
    - by injection Hcall as _ <-.
    - injection Hcall as _ <-. apply tags_updated. by right. }
  exists db', e. split_and!; try done.
  - apply get_memory_entries_elem. split_and!; auto.
  - by apply get_memory_entries_elem.
  - intros t Ht. apply get_memory_entries_elem. split_and!; auto.
    exists t. split; [by left|by apply Htags].
  - intros e' (Hin' & Hu' & [?|Hc'] & _)%get_memory_entries_elem Hk'; [done|].
    assert (e' ∈ entries_for db' u c k) as He'.
    { apply elem_of_list_filter_bool. split; [done|]. by apply entry_matches_true. }
    rewrite Hrows in He'. by apply list_elem_of_singleton in He'.
Qed.

End entries_round_trip.

(** ** Conversation contexts: creating once, linking many *)

Section contexts_more.
Import Memory Service.

(** X13: [get_or_create_conversation_context] creates the context of a key
    once.  A first call on a key without a row stores a context titled
    with the given title, or with the key when no title (or an empty one)
    is given; any later call returns that row and changes nothing, also
    when it passes another title or type. *)
Theorem get_or_create_conversation_context_once (db : DB)
    (u k t t' : string) (title_ title' : option string) (now now' : string) :
  (length (contexts_for db u k) ≤ 1)%nat →
  ∃ db1 c,
    get_or_create_conversation_context db u k t title_ now = (db1, Ok c)
    ∧ get_or_create_conversation_context db1 u k t' title' now' = (db1, Ok c)
    ∧ contexts_for db1 u k = [c]
    ∧ match contexts_for db u k with
      | [] => c = new_context u t k (title_or title_ k) now
              ∧ (title_ = None ∨ title_ = Some EmptyString → title c = k)
              ∧ conversation_contexts db1 = conversation_contexts db ++ [c]
      | c0 :: _ => c = c0 ∧ db1 = db
      end.
Proof.
  intros Hlen. rewrite get_or_create_conversation_context_cases.
  destruct (contexts_for db u k) as [|c0 [|c1 rest]] eqn:Hrows;
    simpl in Hlen; [| |lia].
  - do 2 eexists. split; [reflexivity|].
    assert (contexts_for
              (set_conversation_contexts
                 (conversation_contexts db
                    ++ [new_context u t k (title_or title_ k) now]) db) u k
            = [new_context u t k (title_or title_ k) now]) as Hrows1.
    { unfold contexts_for in *. simpl. rewrite List.filter_app, Hrows. simpl.
      by rewrite context_matches_new. }
    rewrite get_or_create_conversation_context_cases, Hrows1.
    split_and!; try done.
    intros [->| ->]; done.
  - exists db, c0. rewrite get_or_create_conversation_context_cases, Hrows. done.
Qed.

Lemma context_ids_before db u k now :
  or_nil (conversation_ids (context_before db u k now)) = context_ids db u k.
Proof.
  unfold context_before, context_ids. by destruct (contexts_for db u k).
Qed.

Lemma context_facts_before db u k now :
  or_nil (key_facts (context_before db u k now)) = context_facts db u k.
Proof.
  unfold context_before, context_facts. by destruct (contexts_for db u k).
Qed.

(** One link, on the id list and the fact list of the stored context. *)
Lemma link_step db u k cid f d a now :
  (length (contexts_for db u k) ≤ 1)%nat →
  let db' := (add_conversation_to_context db u k cid f d a now).1 in
  length (contexts_for db' u k) = 1%nat
  ∧ context_ids db' u k
    = match context_ids db u k with
      | [] => [cid]
      | ids => ids
      end
  ∧ context_facts db' u k
    = match context_facts db u k with
      | [] => or_nil f
      | facts => facts
      end.
Proof.
  intros Hlen db'.
  destruct (add_conversation_to_context_unique db u k cid f d a now Hlen)
    as (db1 & Hcall & Hrows & _).
  subst db'. rewrite Hcall. cbn [fst].
  unfold context_ids at 1, context_facts at 1.
  rewrite Hrows. cbn [head from_option].
  rewrite conversation_ids_link, key_facts_link, context_ids_before,
    context_facts_before. done.
Qed.

Lemma link_all_invariant links db u k :
  (length (contexts_for db u k) ≤ 1)%nat →
  let db' := link_all db u k links in
  (length (contexts_for db' u k) ≤ 1)%nat
  ∧ context_ids db' u k
    = match context_ids db u k with
      | [] => take 1 links.*1.*1
      | ids => ids
      end
  ∧ context_facts db' u k
    = match context_facts db u k with
      | [] => first_given links
      | facts => facts
      end.
Proof.
  revert db. induction links as [|[[cid f] now] links IH]; intros db Hlen.
  - simpl. split_and!; [done| |].
    + by destruct (context_ids db u k).
    + by destruct (context_facts db u k).
  - simpl.
    destruct (link_step db u k cid f None None now Hlen) as (Hlen1 & Hids & Hfacts).
    cbv zeta in Hlen1, Hids, Hfacts.
    set (db1 := (add_conversation_to_context db u k cid f None None now).1) in *.
    destruct (IH db1) as (Hlen' & Hids' & Hfacts'); [lia|].
    cbv zeta in Hids', Hfacts'.
    split_and!; [done| |].
    + rewrite Hids', Hids. by destruct (context_ids db u k).
    + rewrite Hfacts', Hfacts.
      by destruct (context_facts db u k), (or_nil f).
Qed.

(** X14: linking conversations to a context that does not exist yet
    creates it.  After any number of links its id list holds the id of
    the first link and no other, and its key facts are the first
    non-empty list of facts that was passed: every later [append] and
    [extend] is made in place on the loaded list, which the commit does
    not write. *)
Theorem link_all_conversations (db : DB) (u k : string)
    (links : list (string * option (list string) * string)) :
  contexts_for db u k = [] →
  let db' := link_all db u k links in
  context_ids db' u k = take 1 links.*1.*1
  ∧ context_facts db' u k = first_given links.
Proof.
  intros Hnone db'.
  destruct (link_all_invariant links db u k) as (_ & Hids & Hfacts).
  { rewrite Hnone. simpl. lia. }
  fold db' in Hids, Hfacts.
  unfold context_ids at 2 in Hids. unfold context_facts at 2 in Hfacts.
  rewrite Hnone in Hids, Hfacts. done.
Qed.

End contexts_more.

(** ** The two sub-queries *)

Section sub_query_facts.
Import RAG RAGSpec.
Context `{ChunkStoreOps}.

Lemma elem_of_filter_bool {A} (P : A → bool) l x :
  x ∈ List.filter P l ↔ x ∈ l ∧ P x = true.
Proof. rewrite !list_elem_of_In. apply filter_In. Qed.

Lemma opt_cond_holds {A} (mk : A → condition) (x : option A) row :
  forallb (holds row) (opt_cond mk x) = true ↔ ∀ v, x = Some v → holds row (mk v) = true.
Proof.
  destruct x as [v|]; simpl.
  - rewrite andb_true_r. naive_solver.
  - naive_solver.
Qed.

Lemma holds_tags row ts :
  holds row (TagsOverlap ts) = true ↔ ∃ t, t ∈ d_tags row ∧ t ∈ ts.
Proof.
  simpl. rewrite existsb_exists. setoid_rewrite bool_decide_eq_true.
  setoid_rewrite <- list_elem_of_In. done.
Qed.

Lemma holds_team row t :
  holds row (TeamCanAccess t) = true ↔ t ∈ d_team_access row ∨ d_is_public row = true.
Proof. simpl. by rewrite orb_true_iff, bool_decide_eq_true. Qed.

Lemma holds_mime row m : holds row (MimeTypeIs m) = true ↔ d_mime_type row = m.
Proof. simpl. by rewrite bool_decide_eq_true. Qed.

Lemma vector_where_clause fs row :
  where_clause (vector_filter_conditions fs) row = true ↔ passes_filters false fs row.
Proof.
  unfold where_clause, passes_filters, passes_type_and_tags, passes_team.
  destruct fs as [f|]; simpl; [|done].
  rewrite !forallb_app, !andb_true_iff, !opt_cond_holds.
  setoid_rewrite holds_mime. setoid_rewrite holds_tags. setoid_rewrite holds_team.
  naive_solver.
Qed.

Lemma keyword_where_clause fs row :
  where_clause (keyword_filter_conditions fs) row = true ↔ passes_filters true fs row.
Proof.
  unfold where_clause, passes_filters, passes_type_and_tags.
  destruct fs as [f|]; simpl; [|done].
  rewrite !forallb_app, !andb_true_iff, !opt_cond_holds.
  setoid_rewrite holds_mime. setoid_rewrite holds_tags.
  naive_solver.
Qed.

Lemma sql_limit_cases {A} limit (rows : list A) :
  match sql_limit limit rows with
  | Ok out => 0 ≤ limit ∧ out = take (Z.to_nat limit) rows
  | Raise _ => limit < 0
  end.
Proof. unfold sql_limit. case_decide; [done|]. split; [lia|done]. Qed.

Lemma StronglySorted_take {A} (R : A → A → Prop) n l :
  StronglySorted R l → StronglySorted R (take n l).
Proof.
  intros Hs. rewrite <- (take_drop n l) in Hs.
  by apply StronglySorted_app_1_l in Hs.
Qed.

Lemma StronglySorted_fmap_on {A B} (R : A → A → Prop) (R' : B → B → Prop)
    (P : A → Prop) (f : A → B) l :
  (∀ x y, P x → P y → R x y → R' (f x) (f y)) →
  Forall P l → StronglySorted R l → StronglySorted R' (f <$> l).
Proof.
  intros Hf HP Hs. induction Hs as [|x l Hs IH Hx]; [constructor|].
  apply Forall_cons in HP as [HPx HP]. simpl. constructor; [by apply IH|].
  apply Forall_fmap. rewrite Forall_forall in Hx, HP |- *.
  intros y Hy. apply Hf; auto.
Qed.

Lemma Qle_bool_total x y : Qle_bool x y = false → Qle_bool y x = true.
Proof.
  intros Hxy. apply Qle_bool_iff.
  destruct (Qlt_le_dec y x) as [Hlt|Hle].
  - by apply Qlt_le_weak.
  - apply Qle_bool_iff in Hle. congruence.
Qed.

Lemma Qle_bool_trans x y z :
  Qle_bool x y = true → Qle_bool y z = true → Qle_bool x z = true.
Proof. rewrite !Qle_bool_iff. apply Qle_trans. Qed.

Lemma search_documents_facts (self : RAGService) (db : list chunk_row)
    (query : string) (k : option Z) (fs : option filters) :
  match search_documents self db query k fs with
  | Raise e => get_embeddings [query] = Raise e
  | Ok docs =>
      Z.of_nat (length docs) ≤ Z.max 0 (py_or k (top_k self))
      ∧ StronglySorted (λ a b, (similarity b <= similarity a)%Q) docs
      ∧ ∀ d, d ∈ docs →
          ∃ q rest row emb,
            get_embeddings [query] = Ok (q :: rest)
            ∧ row ∈ db ∧ dc_embedding row = Some emb
            ∧ d = vector_doc q row
            ∧ similarity d = (1 - cosine_distance emb q)%Q
            ∧ (similarity_threshold self < similarity d)%Q
            ∧ passes_filters false fs row
  end.
Proof.
  unfold search_documents.
  destruct (get_embeddings [query]) as [[|[|q0 q] rest]|e]; simpl; [| | |done].
  - split_and!; [lia|constructor|]. by intros d ?%elem_of_nil.
  - split_and!; [lia|constructor|]. by intros d ?%elem_of_nil.
  - set (qe := q0 :: q). unfold vector_sql.
    pose proof (sql_limit_cases (py_or k (top_k self))
      (stable_sort
         (λ x y, Qle_bool (default 0%Q (cosine_distance' qe x))
                          (default 0%Q (cosine_distance' qe y)))
         (List.filter
            (λ row, match vector_similarity qe row with
                    | Some s => negb (Qle_bool s (similarity_threshold self))
                                && where_clause (vector_filter_conditions fs) row
                    | None => false
                    end) db))) as Hlimit.
    destruct (sql_limit _ _) as [rows|e]; simpl.
    2:{ split_and!; [lia|constructor|]. by intros d ?%elem_of_nil. }
    destruct Hlimit as [Hpos ->].
    set (selected := List.filter _ db).
    set (before := λ x y : chunk_row, Qle_bool _ _).
    assert (∀ row, row ∈ take (Z.to_nat (py_or k (top_k self)))
                           (stable_sort before selected) →
              ∃ emb, row ∈ db ∧ dc_embedding row = Some emb
                ∧ (similarity_threshold self < 1 - cosine_distance emb qe)%Q
                ∧ passes_filters false fs row) as Hrows.
    { intros row Hrow. apply subseteq_take in Hrow.
      rewrite stable_sort_perm in Hrow.
      subst selected. apply elem_of_filter_bool in Hrow as [Hin Hsel].
      unfold vector_similarity, cosine_distance' in Hsel.
      destruct (dc_embedding row) as [emb|] eqn:Hemb; [|done].
      apply andb_true_iff in Hsel as [Hthr Hwhere].
      exists emb. split_and!; try done.
      - apply negb_true_iff in Hthr. apply Qnot_le_lt. intros Hle.
        apply Qle_bool_iff in Hle. congruence.
      - by apply vector_where_clause. }
    split_and!.
    + rewrite length_fmap, length_take. lia.
    + eapply (StronglySorted_fmap_on (λ x y, before x y = true) _
                (λ row, ∃ emb, dc_embedding row = Some emb)).
      * intros x y [ex Hx] [ey Hy] Hxy. unfold before in Hxy. simpl.
        unfold vector_similarity, cosine_distance' in *. rewrite Hx, Hy in *.
        simpl in *. apply Qle_bool_iff in Hxy.
        apply Qplus_le_r. by apply Qopp_le_compat.
      * apply Forall_forall. intros row Hrow.
        destruct (Hrows row Hrow) as (emb & _ & ? & _). eauto.
      * apply StronglySorted_take, stable_sort_sorted.
        -- intros x y. apply Qle_bool_total.
        -- intros x y z. apply Qle_bool_trans.
    + intros d (row & -> & Hrow)%list_elem_of_fmap.
      destruct (Hrows row Hrow) as (emb & Hin & Hemb & Hthr & Hpass).
      exists qe, rest, row, emb.
      assert (similarity (vector_doc qe row) = (1 - cosine_distance emb qe)%Q)
        as Hsim.
      { simpl. unfold vector_similarity, cosine_distance'. by rewrite Hemb. }
      split_and!; try done. by rewrite Hsim.
Qed.

(** X15: [search_documents] either passes on the exception of the embedding
    call, or returns at most [limit] results (none for a negative limit),
    in descending order of similarity; each result is a row of the store
    with an embedding, whose similarity to the query embedding is above
    the threshold and which passes the document-type, tag and team
    filters. *)
Theorem search_documents_sound (self : RAGService) (db : list chunk_row)
    (query : string) (k : option Z) (fs : option filters) :
  match search_documents self db query k fs with
  | Raise e => get_embeddings [query] = Raise e
  | Ok docs =>
      Z.of_nat (length docs) ≤ Z.max 0 (py_or k (top_k self))
      ∧ StronglySorted (λ a b, (similarity b <= similarity a)%Q) docs
      ∧ ∀ d, d ∈ docs →
          ∃ q rest row emb,
            get_embeddings [query] = Ok (q :: rest)
            ∧ row ∈ db ∧ dc_embedding row = Some emb
            ∧ d = vector_doc q row
            ∧ similarity d = (1 - cosine_distance emb q)%Q
            ∧ (similarity_threshold self < similarity d)%Q
            ∧ passes_filters false fs row
  end.
Proof. apply search_documents_facts. Qed.

Lemma keyword_search_facts (self : RAGService) (db : list chunk_row)
    (query : string) (k : option Z) (fs : option filters) :
  let docs := keyword_search self db query k fs in
  let limit := py_or k (top_k self) in
  Z.of_nat (length docs) ≤ Z.max 0 limit
  ∧ (limit < 0 → docs = [])
  ∧ ∀ d, d ∈ docs →
      ∃ row, row ∈ db ∧ d = keyword_doc query row
        ∧ ilike (dc_content row) query = true
        ∧ passes_filters true fs row
        ∧ ¬ (similarity d == 0)%Q.
Proof.
  intros docs limit. subst docs. unfold keyword_search, keyword_sql.
  fold limit.
  pose proof (sql_limit_cases limit
    (stable_sort (trgm_ge query)
       (List.filter
          (λ row, ilike (dc_content row) query
                  && where_clause (keyword_filter_conditions fs) row) db)))
    as Hlimit.
  destruct (sql_limit _ _) as [rows|e]; simpl.
  2:{ split_and!; [lia|done|]. by intros d ?%elem_of_nil. }
  destruct Hlimit as [Hpos ->]. split_and!.
  - rewrite length_fmap, length_take. lia.
  - lia.
  - intros d (row & -> & Hrow)%list_elem_of_fmap.
    apply subseteq_take in Hrow. rewrite stable_sort_perm in Hrow.
    apply elem_of_filter_bool in Hrow as [Hin [Hlike Hwhere]%andb_true_iff].
    exists row. split_and!; try done.
    + by apply keyword_where_clause.
    + simpl. unfold keyword_similarity.
      destruct (trgm_similarity _ _) as [s|]; [|done].
      destruct (Qeq_bool s 0) eqn:Hz; [done|].
      intros Hs. apply Qeq_bool_iff in Hs. congruence.
Qed.

(** X16: [keyword_search] returns at most [limit] results, and none for a
    negative limit; each result is a row of the store whose content
    matches the query text and which passes the document-type and tag
    filters; and no result carries the similarity [0], which the result
    loop replaces by [0.5]. *)
Theorem keyword_search_sound (self : RAGService) (db : list chunk_row)
    (query : string) (k : option Z) (fs : option filters) :
  let docs := keyword_search self db query k fs in
  let limit := py_or k (top_k self) in
  Z.of_nat (length docs) ≤ Z.max 0 limit
  ∧ (limit < 0 → docs = [])
  ∧ ∀ d, d ∈ docs →
      ∃ row, row ∈ db ∧ d = keyword_doc query row
        ∧ ilike (dc_content row) query = true
        ∧ passes_filters true fs row
        ∧ ¬ (similarity d == 0)%Q.
Proof. apply keyword_search_facts. Qed.

Lemma slice_to_subseteq {A} (l : list A) k : slice_to l k ⊆ l.
Proof. unfold slice_to. case_decide; apply subseteq_take. Qed.

Lemma merge_elem sk v kw k d :
  d ∈ merge sk v kw k → merged_from v kw d.
Proof.
  unfold merge. intros Hd%slice_to_subseteq.
  rewrite sort_desc_perm in Hd. by apply combine_results_elem.
Qed.

Lemma merge_nil sk k : merge sk [] [] k = [].
Proof.
  destruct (merge sk [] [] k) as [|d l] eqn:Hm; [done|].
  assert (d ∈ merge sk [] [] k) as Hd%slice_to_subseteq
    by (rewrite Hm; left).
  rewrite sort_desc_perm in Hd.
  apply combine_results_elem in Hd as [(x & Hx & _)|(_ & x & Hx & _)];
    apply first_with_id_elem in Hx as [[]%elem_of_nil _].
Qed.

(** Every merged result carries its search type. *)
Lemma merge_tagged sk v kw k d :
  d ∈ merge sk v kw k →
  search_type_of d = Some (if decide (chunk_id d ∈ ids_of v) then Vector else Keyword).
Proof.
  intros [(x & Hx%first_with_id_elem & ->)|(Hnot & x & _ & ->)]%merge_elem.
  - rewrite decide_True; [done|]. apply elem_of_ids_of. naive_solver.
  - by rewrite decide_False.
Qed.

(** X17: when the embedding call raises, [hybrid_search] raises the same
    exception although the keyword search could still run; when the
    embedding is empty, it returns keyword results only, each tagged
    [keyword]. *)
Theorem hybrid_search_without_embedding (self : RAGService)
    (db : list chunk_row) (query : string) (k : Z) (fs : option filters) :
  match get_embeddings [query] with
  | Raise e => hybrid_search self db query (Some k) fs = Raise e
  | Ok [] | Ok ([] :: _) =>
      ∃ out, hybrid_search self db query (Some k) fs = Ok out
        ∧ out = merge (top_k self) []
                  (keyword_search self db query (Some (k * 2)) fs) (Some k)
        ∧ ∀ d, d ∈ out → search_type_of d = Some Keyword
  | Ok _ =>
      ∃ out, hybrid_search self db query (Some k) fs = Ok out
        ∧ ∀ d, d ∈ out → is_Some (search_type_of d)
  end.
Proof.
  rewrite hybrid_search_with_top_k. unfold search_documents.
  destruct (get_embeddings [query]) as [[|[|q0 q] rest]|e]; simpl; [| | |done].
  - eexists. split_and!; [done..|]. intros d Hd%merge_tagged. by rewrite Hd.
  - eexists. split_and!; [done..|]. intros d Hd%merge_tagged. by rewrite Hd.
  - eexists. split; [done|]. intros d Hd%merge_tagged. by rewrite Hd.
Qed.

(** X18: with a negative [top_k] both sub-queries send a negative [LIMIT],
    the store rejects it, both swallow the error, and [hybrid_search]
    returns the empty list (or the exception of the embedding call). *)
Theorem hybrid_search_negative_top_k (self : RAGService)
    (db : list chunk_row) (query : string) (k : Z) (fs : option filters) :
  k < 0 →
  match get_embeddings [query] with
  | Raise e => hybrid_search self db query (Some k) fs = Raise e
  | Ok _ => hybrid_search self db query (Some k) fs = Ok []
  end.
Proof.
  intros Hk. rewrite hybrid_search_with_top_k.
  assert (keyword_search self db query (Some (k * 2)) fs = []) as Hkw.
  { apply keyword_search_facts. rewrite py_or_nonzero; lia. }
  pose proof (search_documents_facts self db query (Some (k * 2)) fs) as Hv.
  destruct (search_documents self db query (Some (k * 2)) fs) as [docs|e] eqn:Hs.
  - destruct Hv as (Hlen & _). rewrite py_or_nonzero in Hlen by lia.
    assert (docs = []) as -> by (destruct docs; [done|simpl in Hlen; lia]).
    destruct (get_embeddings [query]) eqn:He.
    + simpl. rewrite Hkw. f_equal. apply merge_nil.
    + unfold search_documents in Hs. by rewrite He in Hs.
  - by rewrite Hv.
Qed.

Lemma py_or_double_neg k d : py_or (Some k) d < 0 → py_or (Some (k * 2)) d < 0.
Proof. unfold py_or. repeat case_decide; lia. Qed.

Lemma slice_to_sublist {A} (l : list A) k : slice_to l k `sublist_of` l.
Proof. unfold slice_to. case_decide; apply sublist_take. Qed.

Lemma length_zero_nil {A} (l : list A) : Z.of_nat (length l) ≤ 0 → l = [].
Proof. destruct l; [done|]. simpl. lia. Qed.

(** X19: [hybrid_search] raises only when the embedding call does.  Its
    results have pairwise distinct chunk ids, are in descending order of
    similarity and are at most [top_k or self.top_k] many; every result
    is tagged and belongs to a stored chunk: a result tagged [vector]
    passed all three filters and the similarity threshold, a result
    tagged [keyword] matched the query text and passed the document-type
    and tag filters. *)
Theorem hybrid_search_sound (self : RAGService) (db : list chunk_row)
    (query : string) (k : Z) (fs : option filters) :
  match hybrid_search self db query (Some k) fs with
  | Raise e => get_embeddings [query] = Raise e
  | Ok out =>
      NoDup (chunk_id <$> out)
      ∧ StronglySorted (λ a b, (similarity b <= similarity a)%Q) out
      ∧ Z.of_nat (length out) ≤ Z.max 0 (py_or (Some k) (top_k self))
      ∧ ∀ d, d ∈ out →
          ∃ row, row ∈ db ∧ chunk_id d = dc_id row
            ∧ match search_type_of d with
              | Some Vector =>
                  passes_filters false fs row
                  ∧ (similarity_threshold self < similarity d)%Q
              | Some Keyword =>
                  passes_filters true fs row
                  ∧ ilike (dc_content row) query = true
              | None => False
              end
  end.
Proof.
  rewrite hybrid_search_with_top_k.
  pose proof (search_documents_facts self db query (Some (k * 2)) fs) as Hv.
  pose proof (keyword_search_facts self db query (Some (k * 2)) fs) as Hk.
  cbv zeta in Hk.
  destruct (search_documents self db query (Some (k * 2)) fs) as [v|e];
    simpl; [|done].
  destruct Hv as (Hvlen & _ & Hv). destruct Hk as (_ & Hkneg & Hk).
  set (kw := keyword_search self db query (Some (k * 2)) fs) in *.
  split_and!.
  - eapply sublist_NoDup; [|apply fmap_sublist, slice_to_sublist].
    rewrite sort_desc_perm. apply combine_results_NoDup.
  - unfold merge, slice_to.
    case_decide; apply StronglySorted_take, sort_desc_sorted.
  - change (Z.of_nat (length (merge (top_k self) v kw (Some k)))
            ≤ Z.max 0 (py_or (Some k) (top_k self))).
    destruct (decide (0 ≤ py_or (Some k) (top_k self))) as [Hpos|Hneg].
    + unfold merge. rewrite slice_to_pos by done. rewrite length_take. lia.
    + assert (py_or (Some (k * 2)) (top_k self) < 0) as Hlt
        by (apply py_or_double_neg; lia).
      rewrite Hkneg by done.
      rewrite (length_zero_nil v) by lia. rewrite merge_nil. simpl. lia.
  - intros d [(x & [Hx Hid]%first_with_id_elem & ->)
             |(Hnot & x & [Hx Hid]%first_with_id_elem & ->)]%merge_elem.
    + destruct (Hv x Hx) as (q & rest & row & emb & _ & Hrow & _ & -> & _ & Hthr & Hpass).
      exists row. simpl. split_and!; done.
    + destruct (Hk x Hx) as (row & Hrow & -> & Hlike & Hpass & _).
      exists row. simpl. split_and!; done.
Qed.

End sub_query_facts.

Section answers.
Import RAG RAGSpec.
Context `{ChunkStoreOps} `{CompletionEngine}.

Lemma hybrid_search_tagged self db query k fs docs d :
  hybrid_search self db query k fs = Ok docs →
  d ∈ docs → is_Some (search_type_of d).
Proof.
  destruct k as [k|]; [|done]. rewrite hybrid_search_with_top_k.
  destruct (search_documents _ _ _ _ _) as [v|e]; simpl; [|done].
  intros [= <-] Hd%merge_tagged. by rewrite Hd.
Qed.

(** X20: [generate_with_context] fails exactly when the search or the
    completion fails, with the same exception: when it returns, both
    succeeded, and the answer carries the content, model and token count
    of the completion.  Its sources mirror the search results one to one: source [i + 1] carries the
    ids, title and similarity of result [i], and its search type is the
    tag of that result, so the default ["vector"] of
    [doc.get("search_type", "vector")] is never used. *)
Theorem generate_with_context_sources (self : RAGService)
    (db : list chunk_row) (query user_role : string)
    (conversation_context : option (list (string * string)))
    (persistent_memory : option string) (k : option Z) (fs : option filters) :
  match generate_with_context self db query user_role conversation_context
          persistent_memory k fs with
  | Ok ans =>
      ∃ docs response,
        hybrid_search self db query k fs = Ok docs
        ∧ llm_generate
            (prompt_template persistent_memory
               (join_lines (imap (λ i, context_part (S i)) docs))
               query user_role)
            (create_system_prompt user_role persistent_memory
               +:+ memory_awareness_instructions)%string
            conversation_context = Ok response
        ∧ ans_content ans = resp_content response
        ∧ ans_model ans = resp_model response
        ∧ ans_tokens_used ans = resp_tokens_used response
        ∧ length (ans_sources ans) = length docs
        ∧ ∀ i d, docs !! i = Some d →
            ∃ s, ans_sources ans !! i = Some s
              ∧ src_index s = S i
              ∧ src_chunk_id s = chunk_id d
              ∧ src_document_id s = document_id d
              ∧ src_document_title s = document_title d
              ∧ src_similarity s = similarity d
              ∧ search_type_of d = Some (src_search_type s)
  | Raise e =>
      hybrid_search self db query k fs = Raise e
      ∨ ∃ docs, hybrid_search self db query k fs = Ok docs
          ∧ llm_generate
              (prompt_template persistent_memory
                 (join_lines (imap (λ i, context_part (S i)) docs))
                 query user_role)
              (create_system_prompt user_role persistent_memory
                 +:+ memory_awareness_instructions)%string
              conversation_context = Raise e
  end.
Proof.
  unfold generate_with_context.
  destruct (hybrid_search self db query k fs) as [docs|e] eqn:Hh; simpl;
    [|by left].
  destruct (llm_generate _ _ _) as [response|e] eqn:Hllm; simpl.
  - exists docs, response.
    split_and!; [done|done|done|done|done|by rewrite length_imap|].
    intros i d Hd. exists (source_of (S i) d).
    rewrite list_lookup_imap, Hd. split_and!; try done.
    destruct (hybrid_search_tagged _ _ _ _ _ _ d Hh) as [t Ht].
    { by eapply list_elem_of_lookup_2. }
    simpl. by rewrite Ht.
  - right. by exists docs.
Qed.

End answers.

(** ** Topics recorded by the chat endpoint *)

Section chat_topics.
Import Memory Service Chat.
Context `{Runtime} `{TextOps}.

Lemma topics_of_loaded db u now :
  or_nil (frequent_topics (loaded db u now)) = topics_of db u.
Proof. unfold loaded, topics_of. by destruct (user_memories db !! u). Qed.

Lemma topics_of_other db db' u :
  user_memories db' !! u = user_memories db !! u →
  topics_of db' u = topics_of db u.
Proof. unfold topics_of. by intros ->. Qed.

(** What a call does to the topics of a user. *)
Lemma run_call_topics db c now u :
  topics_of (run_call db c now).1 u
  = match added_topic u c with
    | Some t => topics_after (topics_of db u) t
    | None => topics_of db u
    end.
Proof.
  destruct (decide (u = call_user c)) as [->|Hne].
  - destruct c; simpl; rewrite ?decide_True by done;
      try apply topics_of_add_frequent_topic;
      rewrite <- (topics_of_loaded db _ now);
      unfold topics_of; open_call; try done;
      unfold loaded; by destruct (user_memories db !! _).
  - rewrite (topics_of_other db) by (by apply run_call_other_user).
    destruct c; simpl in *; try done. by rewrite decide_False.
Qed.

Lemma extract_topic_known message : extract_topic message ∈ known_topics.
Proof.
  unfold extract_topic, known_topics.
  destruct (find _ keywords) as [kw|] eqn:Hf.
  - apply find_some in Hf as [Hin%list_elem_of_In _].
    apply elem_of_app. left. apply list_elem_of_fmap. by exists kw.
  - apply elem_of_app. right. by left.
Qed.

Lemma added_topic_known u c t :
  from_chat c → added_topic u c = Some t → t ∈ known_topics.
Proof.
  intros Hc. destruct c; try done. simpl. case_decide; [|done]. intros [= <-].
  destruct (Hc _ _ eq_refl) as (content & [= ->]). apply extract_topic_known.
Qed.

Lemma run_calls_topics calls db u l0 :
  topics_of db u = take 1 l0 →
  topics_of (run_calls db calls) u
  = take 1 (l0 ++ omap (λ c, added_topic u c.1) calls).
Proof.
  revert db l0. induction calls as [|[c now] calls IH]; intros db l0 Hdb.
  - simpl. by rewrite app_nil_r.
  - simpl. pose proof (run_call_topics db c now u) as Hstep.
    destruct (added_topic u c) as [t|] eqn:Ht.
    + rewrite (IH _ (l0 ++ [t])).
      * by rewrite <- app_assoc.
      * rewrite Hstep, Hdb. destruct l0 as [|t0 [|t1 l0]]; simpl; try done;
          case_decide; try done; case_decide; try done; simpl in *; lia.
    + apply IH. by rewrite Hstep.
Qed.

Lemma added_topics_known (calls : list (call * string)) u :
  Forall (λ c, from_chat c.1) calls →
  omap (λ c, added_topic u c.1) calls ⊆ known_topics.
Proof.
  induction 1 as [|[c now] calls Hc _ IH]; simpl; [by intros x ?%elem_of_nil|].
  destruct (added_topic u c) as [t|] eqn:Ht; [|done].
  intros x [->|Hx]%elem_of_cons; [by eapply added_topic_known|by apply IH].
Qed.

(** X21: [extract_topic] returns one of fifteen topics, and
    [send_message] passes it to [add_frequent_topic], which stores a
    topic in an empty list and otherwise appends it in place to the
    loaded list.  So when every [add_frequent_topic] call comes from
    [send_message], then after any run of calls on empty tables the topic
    list of a user holds the topic of the first such call for that user
    and no other, and that topic is one of the fifteen. *)
Theorem chat_topics_keep_the_first (calls : list (call * string)) (u : string) :
  Forall (λ c, from_chat c.1) calls →
  let db := run_calls empty_db calls in
  topics_of db u = take 1 (omap (λ c, added_topic u c.1) calls)
  ∧ topics_of db u ⊆ known_topics
  ∧ (length known_topics = 15)%nat
  ∧ ∀ c now,
      topics_of (run_call db c now).1 u
      = match added_topic u c with
        | Some t => topics_after (topics_of db u) t
        | None => topics_of db u
        end.
Proof.
  intros Hcalls db.
  assert (topics_of db u = take 1 (omap (λ c, added_topic u c.1) calls)) as Heq
    by apply (run_calls_topics calls empty_db u [] eq_refl).
  split_and!; [done| |done|intros; apply run_call_topics].
  rewrite Heq. etrans; [apply subseteq_take|]. by apply added_topics_known.
Qed.

End chat_topics.

(** ** The search endpoints *)

Section search_endpoints.
Import RAG RAGSpec SearchAPI.
Context `{ChunkStoreOps}.

Lemma keyword_search_team self db query k f t :
  keyword_search self db query k (Some (set_team t f))
  = keyword_search self db query k (Some f).
Proof. done. Qed.

(** X22: [GET /documents] with the search type ["vector"] fails only when
    the embedding call does.  Otherwise [total] counts the results, and
    every result belongs to a stored chunk whose document is public or
    shared with the team in force: the team of the query string when one
    is given, else the team of the user. *)
Theorem search_documents_get_vector_scope (self : RAGService)
    (db : list chunk_row) (query : string) (k : Z)
    (team current_user_team : option string) :
  match search_documents_get self db query "vector" k team current_user_team with
  | Raise e => get_embeddings [query] = Raise e
  | Ok r =>
      total r = length (results r)
      ∧ ∀ d, d ∈ results r →
          ∃ row, row ∈ db ∧ chunk_id d = dc_id row
            ∧ ∀ t, (Service.nonempty team = Some t
                    ∨ (Service.nonempty team = None
                       ∧ Service.nonempty current_user_team = Some t)) →
                t ∈ d_team_access row ∨ d_is_public row = true
  end.
Proof.
  unfold search_documents_get. rewrite decide_True by done.
  match goal with |- context [search_documents self db query (Some k) (Some ?f)] =>
    pose proof (search_documents_facts self db query (Some k) (Some f)) as Hv;
    destruct (search_documents self db query (Some k) (Some f)) as [docs|e] end;
    simpl; [|done].
  split; [done|]. intros d Hd.
  destruct Hv as (_ & _ & Hv).
  destruct (Hv d Hd) as (q & rest & row & emb & _ & Hrow & _ & -> & _ & _ & Hpass).
  exists row. split_and!; [done..|].
  intros t Ht. destruct Hpass as [_ Hteam]. apply (Hteam eq_refl).
  destruct Ht as [->|[-> ->]]; done.
Qed.

(** X23: the team of the user is only a default.  A caller of
    [GET /documents] who names a team, and a caller of [POST /documents]
    whose filters carry a team, gets the answer that a user of any other
    team gets: neither handler compares the named team with the teams of
    the caller. *)
Theorem named_team_overrides_membership (self : RAGService)
    (db : list chunk_row) (query search_type : string) (k : Z)
    (t : string) (f : filters) (own other : option string) :
  t ≠ EmptyString → f_team f = Some t →
  search_documents_get self db query search_type k (Some t) own
  = search_documents_get self db query search_type k (Some t) other
  ∧ search_documents_post self db query search_type k (Some f) own
    = search_documents_post self db query search_type k (Some f) other.
Proof.
  intros Ht Hf. split.
  - unfold search_documents_get, Service.nonempty.
    by rewrite (decide_False (P := t = EmptyString)).
  - unfold search_documents_post.
    change (default no_filters (Some f)) with f. rewrite Hf.
    by destruct (Service.nonempty own), (Service.nonempty other).
Qed.

(** X24: with the search type ["keyword"] the answer of [GET /documents]
    does not depend on the team at all, neither on the named one nor on
    the team of the user. *)
Theorem keyword_endpoint_ignores_teams (self : RAGService)
    (db : list chunk_row) (query : string) (k : Z)
    (team team' own own' : option string) :
  search_documents_get self db query "keyword" k team own
  = search_documents_get self db query "keyword" k team' own'.
Proof.
  unfold search_documents_get. rewrite decide_False by done.
  rewrite decide_True by done. simpl.
  by destruct (Service.nonempty team), (Service.nonempty team'),
    (Service.nonempty own), (Service.nonempty own').
Qed.

End search_endpoints.

(** ** The memory text *)

Section memory_text.
Import Memory Service.
Context `{MemoryText}.

(** X25: [get_memory_context_for_llm] reads by writing.  It first stores a
    profile for a user without one.  When the profile cannot be rendered
    (a list with an item that is not a string under [team_info], or such
    a list, [None] or a number under one of the three keys of
    [domain_expertise] that are shown), the call raises [TypeError] and
    leaves only that.  Otherwise, for a context key with at most one row,
    it stores a context of type ["project"] titled with the key when
    there is none, leaves the memory entries as they are and returns a
    text that is never empty; a second call returns the same text and
    changes nothing. *)
Theorem get_memory_context_for_llm_writes (db : DB) (u k now now' : string) :
  k ≠ EmptyString → (length (contexts_for db u k) ≤ 1)%nat →
  if renders (loaded db u now) then
    ∃ db1 text,
      get_memory_context_for_llm db u (Some k) now = (db1, Ok text)
      ∧ text ≠ EmptyString
      ∧ user_memories db1 !! u = Some (loaded db u now)
      ∧ memory_entries db1 = memory_entries db
      ∧ contexts_for db1 u k
        = match contexts_for db u k with
          | [] => [new_context u "project" k k now]
          | rows => rows
          end
      ∧ get_memory_context_for_llm db1 u (Some k) now' = (db1, Ok text)
  else
    get_memory_context_for_llm db u (Some k) now
    = ((get_or_create_user_memory db u now).1, Raise TypeError).
Proof.
  intros Hk Hlen. unfold get_memory_context_for_llm, memory_sections.
  rewrite !get_or_create_user_memory_eq. cbv beta iota zeta.
  destruct (renders (loaded db u now)) eqn:Hrenders; [|done].
  unfold nonempty. rewrite decide_False by done.
  rewrite get_or_create_conversation_context_cases.
  set (db0 := set_user_memories (<[u:=loaded db u now]> (user_memories db)) db).
  assert (contexts_for db0 u k = contexts_for db u k) as Hrows0 by done.
  rewrite Hrows0.
  destruct (contexts_for db u k) as [|c0 [|c1 rest]] eqn:Hrows;
    simpl in Hlen; [| |lia].
  - do 2 eexists. split; [reflexivity|].
    set (c := new_context u "project" k (title_or None k) now).
    set (db1 := set_conversation_contexts (conversation_contexts db0 ++ [c]) db0).
    assert (contexts_for db1 u k = [c]) as Hrows1.
    { unfold contexts_for in *. subst db1 c. simpl.
      rewrite List.filter_app. simpl in Hrows0. rewrite Hrows. simpl.
      by rewrite context_matches_new. }
    assert (user_memories db1 !! u = Some (loaded db u now)) as Hu
      by (subst db1 db0; simpl; by rewrite lookup_insert_eq).
    split_and!; [done|done|done|done|].
    rewrite get_or_create_user_memory_eq. cbv beta iota zeta.
    assert (loaded db1 u now' = loaded db u now) as ->
      by (unfold loaded at 1; by rewrite Hu).
    assert (set_user_memories (<[u:=loaded db u now]> (user_memories db1)) db1 = db1)
      as ->.
    { subst db1 db0. destruct db. unfold set_user_memories, set_conversation_contexts.
      simpl. f_equal. by rewrite insert_insert_eq. }
    rewrite Hrenders.
    rewrite get_or_create_conversation_context_cases, Hrows1. done.
  - do 2 eexists. split; [reflexivity|].
    assert (user_memories db0 !! u = Some (loaded db u now)) as Hu
      by (subst db0; simpl; by rewrite lookup_insert_eq).
    split_and!; [done|done|done|done|].
    rewrite get_or_create_user_memory_eq. cbv beta iota zeta.
    assert (loaded db0 u now' = loaded db u now) as ->
      by (unfold loaded at 1; by rewrite Hu).
    assert (set_user_memories (<[u:=loaded db u now]> (user_memories db0)) db0 = db0)
      as ->.
    { subst db0. destruct db. unfold set_user_memories.
      simpl. f_equal. by rewrite insert_insert_eq. }
    rewrite Hrenders.
    rewrite get_or_create_conversation_context_cases, Hrows0, ?Hrows. done.
Qed.

End memory_text.

(** ** Examples of the service and endpoint properties *)

Section service_examples.
Import RAG Memory Service Chat SearchAPI Examples ServiceExamples.

Lemma calls_leave_other_users_alone_witness :
  "u2" ≠ call_user (AddFrequentTopic "u1" "Claims")
  ∧ user_memories
      (run_call (H:=demo_runtime) empty_db (AddFrequentTopic "u1" "Claims") "t1").1
      !! "u2"
    = user_memories empty_db !! "u2".
Proof.
  split; [discriminate|].
  pose proof (calls_leave_other_users_alone (H:=demo_runtime) empty_db
                (AddFrequentTopic "u1" "Claims") "t1" "u2") as Hw.
  cbv zeta in Hw. apply Hw. discriminate.
Defined.

Lemma add_then_complete_project_witness :
  let db1 := (@add_active_project demo_runtime empty_db "u1" project_planned "t1").1 in
  let db2 := (complete_project db1 "u1" "WC Migration" ∅ "t2").1 in
  project_planned !! "name" = Some (PAtom (AStr "WC Migration"))
  ∧ projects_of db2 "u1" = [project_planned]
  ∧ history_of db2 "u1" = [completed project_planned ∅ "t2"].
Proof.
  split; [reflexivity|].
  apply (add_then_complete_project (H:=demo_runtime) empty_db "u1"
           "WC Migration" project_planned ∅ "t1" "t2"); reflexivity.
Defined.

Lemma add_memory_entry_twice_witness :
  let db1 := (@add_memory_entry demo_runtime empty_db "u1" "preference" "editor"
                "vim" (Some "conv-1") 80 (Some ["tools"]) None "t1").1 in
  entries_for empty_db "u1" "preference" "editor" = []
  ∧ ∃ db2 e,
      @add_memory_entry demo_runtime db1 "u1" "preference" "editor" "emacs"
        None 100 (Some ["ide"]) None "t2" = (db2, Ok e)
      ∧ entries_for db2 "u1" "preference" "editor" = [e]
      ∧ value e = "emacs" ∧ me_created_at e = "t1"
      ∧ source_conversation_id e = Some "conv-1".
Proof.
  split; [reflexivity|].
  destruct (add_memory_entry_twice (H:=demo_runtime) empty_db "u1" "preference"
              "editor" "vim" "emacs" (Some "conv-1") None 80 100
              (Some ["tools"]) (Some ["ide"]) None None "t1" "t2")
    as (db2 & e & Hcall & Hrows & _ & Hv & _ & _ & Hc & Hsrc & _);
    [reflexivity|].
  exists db2, e. split_and!; assumption.
Defined.

Lemma add_memory_entry_duplicates_witness :
  (2 ≤ length (entries_for duplicated_db "u1" "preference" "editor"))%nat
  ∧ @add_memory_entry demo_runtime duplicated_db "u1" "preference" "editor"
      "emacs" None 100 None None "t1"
    = (duplicated_db, Raise MultipleResultsFound).
Proof.
  split; [vm_compute; lia|].
  apply (add_memory_entry_duplicates (H:=demo_runtime)). vm_compute; lia.
Defined.

Lemma add_then_get_memory_entry_witness :
  (length (entries_for empty_db "u1" "preference" "editor") ≤ 1)%nat
  ∧ ∃ db' e,
      @add_memory_entry demo_runtime empty_db "u1" "preference" "editor" "vim"
        None 100 (Some ["tools"]) None "t1" = (db', Ok e)
      ∧ value e = "vim"
      ∧ e ∈ get_memory_entries db' "u1" (Some "preference") None
      ∧ e ∈ get_memory_entries db' "u1" (Some "preference") (Some ["tools"]).
Proof.
  split; [vm_compute; lia|].
  destruct (add_then_get_memory_entry (H:=demo_runtime) empty_db "u1"
              "preference" "editor" "vim" None 100 (Some ["tools"]) None "t1")
    as (db' & e & Hcall & Hv & Hcat & _ & Htag & _);
    [vm_compute; lia|discriminate|].
  exists db', e. split_and!; [assumption..|]. apply Htag. simpl. left.
Defined.

Lemma get_or_create_conversation_context_once_witness :
  (length (contexts_for empty_db "u1" "WC_Migration") ≤ 1)%nat
  ∧ ∃ db1 c,
      get_or_create_conversation_context empty_db "u1" "WC_Migration" "project"
        None "t1" = (db1, Ok c)
      ∧ get_or_create_conversation_context db1 "u1" "WC_Migration" "issue"
          (Some "Migration") "t2" = (db1, Ok c)
      ∧ contexts_for db1 "u1" "WC_Migration" = [c].
Proof.
  split; [vm_compute; lia|].
  destruct (get_or_create_conversation_context_once empty_db "u1" "WC_Migration"
              "project" "issue" None (Some "Migration") "t1" "t2")
    as (db1 & c & H1 & H2 & Hrows & _); [vm_compute; lia|].
  exists db1, c. split_and!; assumption.
Defined.

Lemma link_all_conversations_witness :
  let links := [("conv-1", Some ["uses Sapiens"], "t1");
                ("conv-2", Some ["go-live in May"], "t2")] in
  let db' := link_all empty_db "u1" "WC_Migration" links in
  contexts_for empty_db "u1" "WC_Migration" = []
  ∧ context_ids db' "u1" "WC_Migration" = ["conv-1"]
  ∧ context_facts db' "u1" "WC_Migration" = ["uses Sapiens"].
Proof.
  split; [reflexivity|].
  apply (link_all_conversations empty_db "u1" "WC_Migration"
           [("conv-1", Some ["uses Sapiens"], "t1");
            ("conv-2", Some ["go-live in May"], "t2")]).
  reflexivity.
Defined.

Lemma hybrid_search_negative_top_k_witness :
  -1 < 0
  ∧ @hybrid_search demo_store rag_service [private_row] "payroll" (Some (-1)) None
    = Ok [].
Proof.
  split; [lia|].
  apply (hybrid_search_negative_top_k (H:=demo_store) rag_service [private_row]
           "payroll" (-1) None). lia.
Defined.

Lemma chat_topics_keep_the_first_witness :
  let calls := [(@topic_call ascii_text "u1" "Policy renewal", "t1");
                (RecordInteraction "u1", "t2");
                (@topic_call ascii_text "u1" "Which SQL query?", "t3")] in
  let db := @run_calls demo_runtime empty_db calls in
  Forall (λ c, @from_chat ascii_text c.1) calls
  ∧ topics_of db "u1" = take 1 (omap (λ c, added_topic "u1" c.1) calls)
  ∧ topics_of db "u1" ⊆ known_topics.
Proof.
  assert (Forall (λ c, @from_chat ascii_text c.1)
            [(@topic_call ascii_text "u1" "Policy renewal", "t1");
             (RecordInteraction "u1", "t2");
             (@topic_call ascii_text "u1" "Which SQL query?", "t3")]) as Hcalls.
  { repeat constructor; intros u topic Hc; simpl in Hc; try discriminate.
    - exists "Policy renewal". by injection Hc as <- _.
    - exists "Which SQL query?". by injection Hc as <- _. }
  split; [exact Hcalls|].
  pose proof (chat_topics_keep_the_first (H:=demo_runtime) (H0:=ascii_text) _ "u1"
                Hcalls) as Hw.
  cbv zeta in Hw. destruct Hw as (Heq & Hsub & _). split; assumption.
Defined.

Lemma named_team_overrides_membership_witness :
  "finance" ≠ EmptyString
  ∧ @search_documents_get demo_store rag_service [private_row] "payroll" "vector"
      5 (Some "finance") (Some "sales")
    = @search_documents_get demo_store rag_service [private_row] "payroll" "vector"
        5 (Some "finance") None.
Proof.
  split; [discriminate|].
  apply (named_team_overrides_membership (H:=demo_store) rag_service
           [private_row] "payroll" "vector" 5 "finance" finance_only
           (Some "sales") None); [discriminate|reflexivity].
Defined.

Lemma get_memory_context_for_llm_writes_witness :
  "WC_Migration" ≠ EmptyString
  ∧ ∃ db1 text,
      @get_memory_context_for_llm plain_text empty_db "u1" (Some "WC_Migration") "t1"
      = (db1, Ok text)
      ∧ text ≠ EmptyString
      ∧ @get_memory_context_for_llm plain_text db1 "u1" (Some "WC_Migration") "t2"
        = (db1, Ok text).
Proof.
  split; [discriminate|].
  pose proof (get_memory_context_for_llm_writes (H:=plain_text) empty_db "u1"
                "WC_Migration" "t1" "t2") as Hw.
  assert (renders (loaded empty_db "u1" "t1") = true) as Hr
    by (vm_compute; reflexivity).
  rewrite Hr in Hw.
  destruct Hw as (db1 & text & Hcall & Hne & _ & _ & _ & Hagain);
    [discriminate|vm_compute; lia|].
  exists db1, text. split_and!; assumption.
Defined.

End service_examples.
